(** * plottr: the ingestion, structuring and merge pipeline

    A shallow embedding of [plottr/plottr.py]: the functions
    [dictToDataFrames] and [combineDataFrames], the slot
    [DataWindow.addData], [PlottrMain.processData] and the receive loop
    [DataReceiver.loop], followed by the properties of the specification
    that concern them.

    Conventions of the embedding.
    - Scalars received over the wire (coordinates and data values) are
      integers [Z]; the order used by [sort_index] is the order of [Z].
    - A Python [dict] that is iterated is an association list with
      Python's update-in-place insertion order ([pydict]); a [dict] that
      is only read and written by key is a [gmap].
    - A raised exception is the [Raise] case of [result]; which exception
      is raised is part of the model.
    - Of pandas only what the program calls is modelled: [zip],
      [MultiIndex.from_tuples], the [DataFrame] constructor on a flat list
      and an index, [DataFrame.append], [DataFrame.sort_index], [df.size],
      [df.index.names] and [df.index.levels].
    - [DataFrame.append] is followed where it leaves the integers of its
      operands as they are. Where pandas converts a column or an index
      level to floating point the result is [NotModelled], and nothing is
      stated about it.
    - The Qt widgets ([DataStructure], [PlotChoice], [MPLPlot]) are
      presentation only and hold none of the state below. *)

From Stdlib Require Import ZArith.
From stdpp Require Import gmap strings list sorting.

Local Open Scope string_scope.
Local Open Scope list_scope.

(** ** Python values, exceptions and dictionaries *)

Definition scalar : Type := Z.

Inductive exn : Type :=
  | KeyError (key : string)
  | ValueError
  | TypeError
  | NotImplementedError.

Inductive result (A : Type) : Type :=
  | Ok (a : A)
  | Raise (e : exn).
Arguments Ok {A} a.
Arguments Raise {A} e.

#[global] Instance result_ret : MRet result := @Ok.
#[global] Instance result_bind : MBind result := λ A B f m,
  match m with
  | Ok a => f a
  | Raise e => Raise e
  end.

Definition raises {A} (m : result A) : Prop := ∃ e, m = Raise e.

(** A Python object used as a dictionary key: a [str], or [None]. *)
Definition name : Type := option string.

(** An insertion-ordered dictionary. The keys of a Python dictionary are
    pairwise distinct; a statement that depends on it assumes
    [NoDup (dict_keys d)]. *)
Definition pydict (K V : Type) : Type := list (K * V).

Section pydict.
Context {K V : Type} `{EqDecision K}.

Fixpoint dict_get (k : K) (d : pydict K V) : option V :=
  match d with
  | [] => None
  | (k', v) :: d' => if decide (k = k') then Some v else dict_get k d'
  end.

(** [d[k] = v]: an existing key keeps its position. *)
Fixpoint dict_set (k : K) (v : V) (d : pydict K V) : pydict K V :=
  match d with
  | [] => [(k, v)]
  | (k', v') :: d' =>
      if decide (k = k') then (k, v) :: d' else (k', v') :: dict_set k v d'
  end.

Definition dict_keys (d : pydict K V) : list K := d.*1.
End pydict.

(** [d[k]]: raises [KeyError] when the key is absent. *)
Definition dict_item {V} (k : string) (d : pydict string V) : result V :=
  match dict_get k d with
  | Some v => Ok v
  | None => Raise (KeyError k)
  end.

(** [o[k]] on an entry that may lack the key [k]. *)
Definition field {V} (k : string) (o : option V) : result V :=
  match o with
  | Some v => Ok v
  | None => Raise (KeyError k)
  end.

(** Python's [zip] applied to the unpacked list of columns: the positional
    tuples, as many as the shortest column has entries; no tuple at all
    when there is no column. *)
Fixpoint zip_star (cols : list (list scalar)) : list (list scalar) :=
  match cols with
  | [] => []
  | c :: cs =>
      match cs with
      | [] => (λ x, [x]) <$> c
      | _ :: _ => zip_with cons c (zip_star cs)
      end
  end.

(** ** The part of pandas that the program uses *)

(** Tuples are compared like Python tuples: lexicographically, level by
    level. *)
Fixpoint tuple_leb (t1 t2 : list scalar) : bool :=
  match t1, t2 with
  | [], _ => true
  | _ :: _, [] => false
  | x :: t1', y :: t2' =>
      if (x <? y)%Z then true
      else if (x =? y)%Z then tuple_leb t1' t2'
      else false
  end.

Definition tuple_le (t1 t2 : list scalar) : Prop := tuple_leb t1 t2 = true.

Record MultiIndex : Type := mkMultiIndex {
  mi_names : list string;
  mi_tuples : list (list scalar)
}.

(** [pd.MultiIndex.from_tuples(tuples, names=names)]. An empty list of
    tuples gives one empty level per name, and an index without any level
    is refused; otherwise there must be one name per level. *)
Definition MultiIndex_from_tuples
    (tuples : list (list scalar)) (names : list string) : result MultiIndex :=
  match tuples with
  | [] =>
      match names with
      | [] => Raise ValueError
      | _ :: _ => Ok (mkMultiIndex names [])
      end
  | t :: _ =>
      if decide (length names = length t) then Ok (mkMultiIndex names tuples)
      else Raise ValueError
  end.

(** A frame with at most one column (the column labelled [0] that the
    constructor creates for a flat list). A row is its index tuple and its
    cell; the cell is [None] when the frame has no column or the value is
    missing. *)
Record DataFrame : Type := mkDataFrame {
  columns_name : name;
  index_names : list string;
  ncols : nat;
  rows : list (list scalar * option scalar)
}.

Definition index (df : DataFrame) : list (list scalar) := (rows df).*1.

(** [pd.DataFrame(vals, mi)]. An empty [vals] builds a frame on the index
    [mi] without any column; a non-empty [vals] must be as long as the
    index. *)
Definition DataFrame_new (vals : list scalar) (mi : MultiIndex) : result DataFrame :=
  match vals with
  | [] =>
      Ok (mkDataFrame None (mi_names mi) 0 ((λ t, (t, None)) <$> mi_tuples mi))
  | _ :: _ =>
      if decide (length vals = length (mi_tuples mi))
      then Ok (mkDataFrame None (mi_names mi) 1 (zip (mi_tuples mi) (Some <$> vals)))
      else Raise ValueError
  end.

(** [df.columns.name = n] *)
Definition set_columns_name (df : DataFrame) (n : string) : DataFrame :=
  mkDataFrame (Some n) (index_names df) (ncols df) (rows df).

(** [df.size] *)
Definition size_of (df : DataFrame) : nat := length (rows df) * ncols df.

(** [df.index.levels]: per level, the distinct values found at that
    position of the tuples. pandas keeps each level sorted; the program
    only takes the length of a level, so the values are left here in the
    order of their first occurrence. *)
Definition level_values (i : nat) (tuples : list (list scalar)) : list scalar :=
  remove_dups (omap (λ t : list scalar, t !! i) tuples).

Definition levels (df : DataFrame) : list (list scalar) :=
  (λ i, level_values i (index df)) <$> seq 0 (length (index_names df)).

(** A [DataFrame] stands for the frame that pandas builds from these
    integers, with the types that it infers for them: a column or an index
    level of integers that all lie in the int64 range is an int64 one. *)
Definition int64_range (x : scalar) : bool :=
  ((- 2 ^ 63 <=? x) && (x <=? 2 ^ 63 - 1))%Z.

Definition int64_row (r : list scalar * option scalar) : bool :=
  forallb int64_range r.1
  && match r.2 with Some v => int64_range v | None => false end.

(** The frame has its column and is int64 throughout. *)
Definition int64_frame (df : DataFrame) : bool :=
  bool_decide (ncols df = 1) && forallb int64_row (rows df).

(** What the embedding gives for a pandas operation that it follows only
    where pandas keeps the integers of the operands as they are:
    [NotModelled] stands for a result in which pandas has converted a
    column or an index level to another type. *)
Inductive modelled (A : Type) : Type :=
  | Exactly (a : A)
  | NotModelled.
Arguments Exactly {A} a.
Arguments NotModelled {A}.

(** The operands for which [append] converts nothing: they have the same
    index names, and one of them has no rows (a frame without rows does
    not count for the types of the result) or both are int64 throughout. *)
Definition keeps_types (df1 df2 : DataFrame) : bool :=
  bool_decide (index_names df1 = index_names df2)
  && (bool_decide (rows df1 = []) || bool_decide (rows df2 = [])
      || (int64_frame df1 && int64_frame df2)).

(** [df1.append(df2)]. Where the types are kept, the result has the rows
    of [df1] followed by the rows of [df2], none dropped and none changed,
    under the index names of [df1]. Elsewhere pandas converts: an int64
    column next to a frame with rows but without column is filled with NaN
    and becomes float64, an int64 index level next to a uint64 level
    becomes float64, and either rounds the integers beyond 2^53; indexes
    with different levels are realigned. Floating point is outside this
    embedding, and such a result is [NotModelled]. *)
Definition append (df1 df2 : DataFrame) : modelled DataFrame :=
  if keeps_types df1 df2 then
    Exactly
      (mkDataFrame
         (if decide (columns_name df1 = columns_name df2)
          then columns_name df1 else None)
         (index_names df1)
         (ncols df1 `max` ncols df2)
         (rows df1 ++ rows df2))
  else NotModelled.

(** [df.sort_index()]: a stable sort of the rows by index tuple. *)
Fixpoint insert_row (r : list scalar * option scalar)
    (l : list (list scalar * option scalar)) : list (list scalar * option scalar) :=
  match l with
  | [] => [r]
  | r' :: l' =>
      if tuple_leb r.1 r'.1 then r :: r' :: l' else r' :: insert_row r l'
  end.

Definition sort_rows (l : list (list scalar * option scalar))
  : list (list scalar * option scalar) := foldr insert_row [] l.

Definition sort_index (df : DataFrame) : DataFrame :=
  mkDataFrame (columns_name df) (index_names df) (ncols df) (sort_rows (rows df)).

(** ** Wire messages *)

(** An entry of [datasets]: the key ['values'] and, for a data array, the
    key ['axes']. *)
Record descriptor : Type := mkDescriptor {
  d_values : option (list scalar);
  d_axes : option (list string)
}.

(** A decoded JSON object with the three fields the program reads. *)
Record message : Type := mkMessage {
  msg_id : option string;
  msg_update : option bool;
  msg_datasets : option (pydict string descriptor)
}.

(** ** dictToDataFrames and combineDataFrames *)

(** An element of the list [coords]: [(a, dataDict[a]['values'])]. *)
Definition coord (dataDict : pydict string descriptor) (a : string)
  : result (string * list scalar) :=
  da ← dict_item a dataDict;
  v ← field "values" (d_values da);
  Ok (a, v).

(** One round of the [for n in dataDict] loop: [None] is the [continue]
    of an entry without ['axes']. *)
Definition frameOf (dataDict : pydict string descriptor) (n : string)
  : result (option DataFrame) :=
  d ← dict_item n dataDict;
  match d_axes d with
  | None => Ok None
  | Some axes =>
      vals ← field "values" (d_values d);
      coords ← mapM (coord dataDict) axes;
      mi ← MultiIndex_from_tuples (zip_star coords.*2) axes;
      df ← DataFrame_new vals mi;
      Ok (Some (set_columns_name df n))
  end.

Fixpoint framesOf (dataDict : pydict string descriptor) (keys : list string)
  : result (list DataFrame) :=
  match keys with
  | [] => Ok []
  | n :: keys' =>
      o ← frameOf dataDict n;
      dfs ← framesOf dataDict keys';
      Ok (match o with Some df => df :: dfs | None => dfs end)
  end.

Definition dictToDataFrames (dataDict : pydict string descriptor) : result (list DataFrame) :=
  framesOf dataDict (dict_keys dataDict).

Definition combineDataFrames (df1 df2 : DataFrame) (sortIndex : bool)
  : modelled DataFrame :=
  match append df1 df2 with
  | Exactly df => Exactly (if sortIndex then sort_index df else df)
  | NotModelled => NotModelled
  end.

(** ** DataWindow *)

(** [self.dataStructure[n]]: the point count of the array and, per axis
    name in index order, the number of distinct values on that axis. *)
Record arrayInfo : Type := mkArrayInfo {
  nValues : nat;
  axes : pydict string nat
}.

(** The attribute [dataStructure] is not assigned by [__init__]: it is
    [None] until the first [addData] that stores frames. *)
Record DataWindow : Type := mkDataWindow {
  dataId : string;
  data : gmap name DataFrame;
  dataStructure : option (pydict name arrayInfo)
}.

Definition DataWindow_init (dataId : string) : DataWindow :=
  mkDataWindow dataId ∅ None.

Inductive outcome : Type :=
  | Returned
  | Raised (e : exn).

(** The entry built for one frame: [df.size], and over
    [zip(df.index.names, df.index.levels)] the length of each level. *)
Definition structureOf (df : DataFrame) : arrayInfo :=
  mkArrayInfo (size_of df)
    (foldl (λ acc mw, dict_set mw.1 (length mw.2) acc) []
       (zip (index_names df) (levels df))).

(** The body of [for df in newDataFrames], on the two dictionaries it
    assigns to. The call [self.updateDataStructure(reset=True)] that ends
    it redraws the tree widget from [dataStructure] and changes neither. *)
Definition storeFrame (st : pydict name arrayInfo * gmap name DataFrame)
    (df : DataFrame) : pydict name arrayInfo * gmap name DataFrame :=
  let n := columns_name df in
  (dict_set n (structureOf df) st.1, <[n := df]> st.2).

(** [DataWindow.addData]. The window is returned with the outcome of the
    call; a raise leaves it as it was at that point. *)
Definition addData (w : DataWindow) (dataDict : message) : DataWindow * outcome :=
  let doUpdate := default false (msg_update dataDict) in
  match msg_datasets dataDict with
  | Some ((_ :: _) as dataDict) =>
      match dictToDataFrames dataDict with
      | Raise e => (w, Raised e)
      | Ok newDataFrames =>
          if negb doUpdate then
            let st := foldl storeFrame ([], data w) newDataFrames in
            (mkDataWindow (dataId w) st.2 (Some st.1), Returned)
          else (w, Raised NotImplementedError)
      end
  | _ => (w, Returned)
  end.

(** ** PlottrMain *)

Record PlottrMain : Type := mkPlottrMain {
  dataHandlers : gmap string DataWindow;
  logger : list string
}.

(** [PlottrMain.processData]; [logger] collects the messages passed to
    [Logger.addMessage]. *)
Definition processData (main : PlottrMain) (data : message) : PlottrMain * outcome :=
  match msg_id data with
  | None => (main, Raised (KeyError "id"))
  | Some dataId =>
      let '(w, log) :=
        match dataHandlers main !! dataId with
        | Some w => (w, logger main)
        | None => (DataWindow_init dataId,
                   (logger main ++ ["Started new data window for " +:+ dataId]))
        end in
      let '(w', out) := addData w data in
      (mkPlottrMain (<[dataId := w']> (dataHandlers main)) log, out)
  end.

(** ** DataReceiver *)

(** What [recv_json] decodes: a JSON object, or any other JSON value
    (array, string, number, [null]). *)
Inductive payload : Type :=
  | JObject (m : message)
  | JOther.

(** What one call of [self.socket.recv_json()] does: it returns the
    decoded payload, or raises on a payload that is not JSON. *)
Inductive received : Type :=
  | Decoded (p : payload)
  | Undecodable.

(** One round of [while self.running]: the flag as the test finds it, and
    what the blocking receive then delivers. *)
Record arrival : Type := mkArrival {
  running : bool;
  recv_json : received
}.

Inductive signal : Type :=
  | sendInfo (s : string)
  | sendData (d : message).

(** How the loop ends on a finite sequence of arrivals: the flag was found
    false, an exception left the loop, or the receive waits for more. *)
Inductive ending : Type :=
  | Stopped
  | Failed (e : exn)
  | Waiting.

(** The body of the loop on a decoded object: the [KeyError] of
    [data['id']] is caught and reported, otherwise the message is passed
    on as received. *)
Definition emitted (data : message) : list signal :=
  match msg_id data with
  | None => [sendInfo "Received invalid data (no ID)"]
  | Some dataId =>
      [sendInfo ("Received data for dataset: " +:+ dataId); sendData data]
  end.

Fixpoint while_running (arrivals : list arrival) : list signal * ending :=
  match arrivals with
  | [] => ([], Waiting)
  | a :: rest =>
      if running a then
        match recv_json a with
        | Undecodable => ([], Failed ValueError)
        | Decoded JOther => ([], Failed TypeError)
        | Decoded (JObject data) =>
            let '(sigs, e) := while_running rest in
            ((emitted data ++ sigs), e)
        end
      else ([], Stopped)
  end.

(** [DataReceiver.loop] *)
Definition loop (arrivals : list arrival) : list signal * ending :=
  let '(sigs, e) := while_running arrivals in
  (sendInfo "Listening..." :: sigs, e).

(** ** Notions used by the statements *)

(** Rows are ordered by their index tuples. *)
Definition row_le (r1 r2 : list scalar * option scalar) : Prop :=
  tuple_le r1.1 r2.1.


(** The array [a] is present in the message with the value list [col]. *)
Definition axis_values (dataDict : pydict string descriptor)
    (a : string) (col : list scalar) : Prop :=
  ∃ d, dict_get a dataDict = Some d ∧ d_values d = Some col.

(** The length of the shortest of the columns ([0] when there is none). *)
Fixpoint shortest (cols : list (list scalar)) : nat :=
  match cols with
  | [] => 0
  | c :: cs =>
      match cs with
      | [] => length c
      | _ :: _ => length c `min` shortest cs
      end
  end.

(** The full grid over the given coordinate sets, one set per axis. *)
Fixpoint cartesian (sets : list (list scalar)) : list (list scalar) :=
  match sets with
  | [] => [[]]
  | s :: ss => x ← s; (x ::.) <$> cartesian ss
  end.

(** The product of the sizes of the coordinate sets. *)
Definition grid_size (sets : list (list scalar)) : nat :=
  foldr (λ s m, length s * m) 1 sets.

(** The arrival of a JSON object while the receiver is running. *)
Definition object_arrival (data : message) : arrival :=
  mkArrival true (Decoded (JObject data)).

(** ** Example messages *)

(** A data array [z] over the full 2 x 2 grid of the axes [x] and [y]. *)
Definition grid_message : pydict string descriptor :=
  [("x", mkDescriptor (Some [1; 1; 2; 2]%Z) None);
   ("y", mkDescriptor (Some [1; 2; 1; 2]%Z) None);
   ("z", mkDescriptor (Some [10; 20; 30; 40]%Z) (Some ["x"; "y"]))].

Definition grid_frame : DataFrame :=
  mkDataFrame (Some "z") ["x"; "y"] 1
    [([1; 1]%Z, Some 10%Z); ([1; 2]%Z, Some 20%Z);
     ([2; 1]%Z, Some 30%Z); ([2; 2]%Z, Some 40%Z)].

(** A data array [z] over axes of unequal lengths: [x] has three values,
    [y] has four, [z] has three. *)
Definition ragged_message : pydict string descriptor :=
  [("x", mkDescriptor (Some [1; 2; 3]%Z) None);
   ("y", mkDescriptor (Some [1; 2; 3; 4]%Z) None);
   ("z", mkDescriptor (Some [10; 20; 30]%Z) (Some ["x"; "y"]))].

(** A data array [z] whose axis [x] lists the coordinate [1] twice. *)
Definition repeated_message : pydict string descriptor :=
  [("x", mkDescriptor (Some [1; 1]%Z) None);
   ("z", mkDescriptor (Some [5; 7]%Z) (Some ["x"]))].

(** A data array [z] that names an axis [y] the message does not have. *)
Definition dangling_message : pydict string descriptor :=
  [("x", mkDescriptor (Some [1; 2]%Z) None);
   ("z", mkDescriptor (Some [5; 7]%Z) (Some ["x"; "y"]))].

(** Two frames over the axes [x] and [y] whose rows are not in order. *)
Definition unsorted_frame1 : DataFrame :=
  mkDataFrame (Some "z") ["x"; "y"] 1
    [([2; 1]%Z, Some 30%Z); ([1; 2]%Z, Some 20%Z)].

Definition unsorted_frame2 : DataFrame :=
  mkDataFrame (Some "z") ["x"; "y"] 1
    [([1; 3]%Z, Some 50%Z); ([1; 1]%Z, Some 10%Z)].

(** The existing and the incoming frame of the last-write-wins example. *)
Definition existing_frame : DataFrame :=
  mkDataFrame (Some "z") ["x"; "y"] 1 [([1; 2]%Z, Some 5%Z)].

Definition incoming_frame : DataFrame :=
  mkDataFrame (Some "z") ["x"; "y"] 1 [([1; 2]%Z, Some 7%Z)].

(** The message that carries [incoming_frame], flagged as an update. *)
Definition incoming_datasets : pydict string descriptor :=
  [("x", mkDescriptor (Some [1]%Z) None);
   ("y", mkDescriptor (Some [2]%Z) None);
   ("z", mkDescriptor (Some [7]%Z) (Some ["x"; "y"]))].

Definition update_message : message :=
  mkMessage (Some "A") (Some true) (Some incoming_datasets).

Definition create_message : message :=
  mkMessage (Some "A") (Some false) (Some incoming_datasets).

(** The message without the update flag that carries [existing_frame]. *)
Definition existing_message : message :=
  mkMessage (Some "A") None
    (Some [("x", mkDescriptor (Some [1]%Z) None);
           ("y", mkDescriptor (Some [2]%Z) None);
           ("z", mkDescriptor (Some [5]%Z) (Some ["x"; "y"]))]).

(** Two messages without the update flag: the first has the data array
    [z], the second the data array [y], both over the axis [x]. *)
Definition first_message : message :=
  mkMessage (Some "A") None
    (Some [("x", mkDescriptor (Some [1; 2]%Z) None);
           ("z", mkDescriptor (Some [10; 20]%Z) (Some ["x"]))]).

Definition second_message : message :=
  mkMessage (Some "A") None
    (Some [("x", mkDescriptor (Some [1; 2; 3]%Z) None);
           ("y", mkDescriptor (Some [7; 8; 9]%Z) (Some ["x"]))]).

Definition z_frame : DataFrame :=
  mkDataFrame (Some "z") ["x"] 1 [([1]%Z, Some 10%Z); ([2]%Z, Some 20%Z)].

Definition y_frame : DataFrame :=
  mkDataFrame (Some "y") ["x"] 1
    [([1]%Z, Some 7%Z); ([2]%Z, Some 8%Z); ([3]%Z, Some 9%Z)].

(** A registry without any window. *)
Definition PlottrMain_init : PlottrMain := mkPlottrMain ∅ [].

(** The names and entries that [dataStructure] gets for a list of frames. *)
Definition structureOfAll (dfs : list DataFrame) : pydict name arrayInfo :=
  (λ df, (columns_name df, structureOf df)) <$> dfs.

(** ** Further notions used by the statements *)

(** The messages that a list of signals passes on with [sendData], in the
    order of emission. *)
Definition data_sent (sigs : list signal) : list message :=
  omap (λ s, match s with sendData d => Some d | sendInfo _ => None end) sigs.

(** The keys of the message whose entry has the key ['axes']: the data
    arrays, in message order. *)
Definition data_arrays (dataDict : pydict string descriptor) : list string :=
  filter (λ n, is_Some (dict_get n dataDict ≫= d_axes)) (dict_keys dataDict).

(** Every window is registered under its own identifier. *)
Definition handlers_consistent (main : PlottrMain) : Prop :=
  ∀ k w, dataHandlers main !! k = Some w → dataId w = k.

(** A message with an identifier and nothing else. *)
Definition bare_message : message := mkMessage (Some "A") None None.

(** A message of axis arrays only, one of them without ['values']. *)
Definition axes_only_message : pydict string descriptor :=
  [("x", mkDescriptor (Some [1; 2]%Z) None);
   ("y", mkDescriptor None None)].

(** A data array without ['values']. *)
Definition valueless_message : pydict string descriptor :=
  [("x", mkDescriptor (Some [1; 2]%Z) None);
   ("z", mkDescriptor None (Some ["x"]))].

(** The rows of a list that have the index tuple [t], in their order. *)
Definition with_tuple (t : list scalar)
    (l : list (list scalar * option scalar)) : list (list scalar * option scalar) :=
  filter (λ r, r.1 = t) l.

(** A frame without rows over the axes [x] and [y]. *)
Definition empty_frame : DataFrame := mkDataFrame (Some "z") ["x"; "y"] 1 [].

(** ** PlotChoice *)

Definition AVGAXISNAMES : list string :=
  ["average"; "averages"; "repetition"; "repetitions"].

(** [n.lower()] on the bytes of [n]: the capitals A to Z become small
    letters, every other byte stays. On text outside ASCII Python's
    [lower] does more, but no character outside ASCII becomes a letter of
    the words in [AVGAXISNAMES], so the test [n.lower() in AVGAXISNAMES],
    the only use of [lower] in the program, has the same result. *)
Definition lower_char (c : Ascii.ascii) : Ascii.ascii :=
  let n := Ascii.nat_of_ascii c in
  if ((65 <=? n) && (n <=? 90))%nat then Ascii.ascii_of_nat (n + 32) else c.

Fixpoint lower (s : string) : string :=
  match s with
  | EmptyString => EmptyString
  | String c s' => String (lower_char c) (lower s')
  end.

(** The attributes that [setOptions] assigns, and its local list [xopts]
    as it is when its first two entries are passed to the x and y
    selection boxes. *)
Record PlotChoice : Type := mkPlotChoice {
  axesNames : list string;
  noSelName : string;
  avgAxisName : option string;
  xopts : list string
}.

(** [while self.noSelName in self.axesNames: ...], at most [fuel] tests of
    the condition; [None] when they do not suffice. *)
Fixpoint noSelName_loop (fuel : nat) (noSelName : string)
    (axesNames : list string) : option string :=
  match fuel with
  | 0 => None
  | S fuel' =>
      if decide (noSelName ∈ axesNames)
      then noSelName_loop fuel' ("<" +:+ noSelName +:+ ">") axesNames
      else Some noSelName
  end.

(** [for n in self.axesNames: if n.lower() in AVGAXISNAMES:
    self.avgAxisName = n], from [None]. *)
Definition find_avgAxisName (axesNames : list string) : option string :=
  foldl (λ avg n, if decide (lower n ∈ AVGAXISNAMES) then Some n else avg)
    None axesNames.

(** [l.pop(l.index(a))]: the first [a] is removed; [index] raises a
    [ValueError] when there is none. *)
Fixpoint pop_index (a : string) (l : list string) : result (list string) :=
  match l with
  | [] => Raise ValueError
  | x :: l' =>
      if decide (x = a) then Ok l'
      else l'' ← pop_index a l'; Ok (x :: l'')
  end.

(** The truth value of [self.avgAxisName]: [None] and the empty string
    count as false. *)
Definition truthy (o : option string) : bool :=
  match o with
  | Some (String _ _) => true
  | _ => false
  end.

(** [PlotChoice.setOptions], without its calls on the three selection
    boxes and its closing signal, which assign none of these attributes. *)
Definition setOptions (fuel : nat) (dataStructure : arrayInfo)
  : option (result PlotChoice) :=
  let axesNames := dict_keys (axes dataStructure) in
  noSelName ← noSelName_loop fuel "<None>" axesNames;
  let axesNames := noSelName :: axesNames in
  let avgAxisName := find_avgAxisName axesNames in
  let xopts := tail axesNames in
  Some (xopts ← (if truthy avgAxisName
                 then pop_index (default "" avgAxisName) xopts
                 else Ok xopts);
        Ok (mkPlotChoice axesNames noSelName avgAxisName xopts)).

(** The placeholder after [k] rounds of the loop. *)
Fixpoint wrapped (k : nat) (s : string) : string :=
  match k with
  | 0 => s
  | S k' => wrapped k' ("<" +:+ s +:+ ">")
  end.

(** The metadata of an array over the axes [repetition], [<None>] and
    [x]. *)
Definition averaged_info : arrayInfo :=
  mkArrayInfo 8 [("Repetition", 2); ("<None>", 2); ("x", 2)].

(** The test of the loop over [axesNames] in [setOptions]. *)
Definition is_avg_name (n : string) : Prop := lower n ∈ AVGAXISNAMES.

(** The text begins with the character [<]. *)
Definition starts_with_lt (s : string) : Prop :=
  ∃ s', s = "<" +:+ s'.

(** The metadata of a window describe its stored frames: every array
    listed in [dataStructure] has a frame in [data], and its entry is the
    one built from that frame. *)
Definition structure_describes_data (w : DataWindow) : Prop :=
  ∀ ds n info, dataStructure w = Some ds → dict_get n ds = Some info →
    ∃ df, data w !! n = Some df ∧ info = structureOf df.

(** No array is listed twice in the metadata of a window, and no axis is
    listed twice for an array. *)
Definition structure_names_distinct (w : DataWindow) : Prop :=
  ∀ ds, dataStructure w = Some ds →
    NoDup (dict_keys ds) ∧ Forall (λ e, NoDup (dict_keys (axes e.2))) ds.


(** * Properties *)

(** ** The order on index tuples *)

Lemma tuple_leb_refl t : tuple_leb t t = true.
Proof.
  induction t as [|x t IH]; simpl; [done|].
  by rewrite Z.ltb_irrefl, Z.eqb_refl.
Qed.

Lemma tuple_leb_total t1 t2 : tuple_leb t1 t2 = true ∨ tuple_leb t2 t1 = true.
Proof.
  revert t2. induction t1 as [|x t1 IH]; intros [|y t2]; simpl; auto.
  destruct (Z.ltb_spec x y), (Z.ltb_spec y x), (Z.eqb_spec x y),
    (Z.eqb_spec y x); auto; lia.
Qed.

Lemma tuple_leb_false t1 t2 : tuple_leb t1 t2 = false → tuple_leb t2 t1 = true.
Proof. destruct (tuple_leb_total t1 t2); congruence. Qed.

Lemma tuple_leb_trans t1 t2 t3 :
  tuple_leb t1 t2 = true → tuple_leb t2 t3 = true → tuple_leb t1 t3 = true.
Proof.
  revert t2 t3. induction t1 as [|x t1 IH]; intros [|y t2] [|z t3]; simpl; try done.
  destruct (Z.ltb_spec x y), (Z.ltb_spec y z), (Z.ltb_spec x z),
    (Z.eqb_spec x y), (Z.eqb_spec y z), (Z.eqb_spec x z);
    try done; try lia; eauto.
Qed.

Lemma tuple_leb_antisym t1 t2 :
  tuple_leb t1 t2 = true → tuple_leb t2 t1 = true → t1 = t2.
Proof.
  revert t2. induction t1 as [|x t1 IH]; intros [|y t2]; simpl; try done.
  destruct (Z.ltb_spec x y), (Z.ltb_spec y x), (Z.eqb_spec x y),
    (Z.eqb_spec y x); try done; try lia.
  intros. f_equal; auto.
Qed.

#[global] Instance tuple_le_refl : Reflexive tuple_le.
Proof. intros t. apply tuple_leb_refl. Qed.
#[global] Instance tuple_le_trans : Transitive tuple_le.
Proof. intros t1 t2 t3. apply tuple_leb_trans. Qed.
#[global] Instance tuple_le_antisym : AntiSymm (=) tuple_le.
Proof. intros t1 t2. apply tuple_leb_antisym. Qed.
#[global] Instance tuple_le_total : Total tuple_le.
Proof. intros t1 t2. apply tuple_leb_total. Qed.

(** ** sort_index *)

Lemma insert_row_perm r l : insert_row r l ≡ₚ r :: l.
Proof.
  induction l as [|r' l IH]; simpl; [done|].
  destruct (tuple_leb r.1 r'.1); [done|].
  by rewrite IH, Permutation_swap.
Qed.

Lemma sort_rows_perm l : sort_rows l ≡ₚ l.
Proof.
  induction l as [|r l IH]; simpl; [done|].
  by rewrite insert_row_perm, IH.
Qed.

Lemma insert_row_hd r0 r l :
  row_le r0 r → HdRel row_le r0 l → HdRel row_le r0 (insert_row r l).
Proof.
  intros Hr Hl. destruct l as [|r' l]; simpl; [by constructor|].
  destruct (tuple_leb r.1 r'.1); constructor; [done|].
  by inv Hl.
Qed.

Lemma insert_row_sorted r l : Sorted row_le l → Sorted row_le (insert_row r l).
Proof.
  induction 1 as [|r' l Hl IH Hhd]; simpl; [by repeat constructor|].
  destruct (tuple_leb r.1 r'.1) eqn:Hle.
  - repeat constructor; done.
  - constructor; [done|].
    apply insert_row_hd; [|done]. by apply tuple_leb_false.
Qed.

Lemma sort_rows_sorted l : Sorted row_le (sort_rows l).
Proof.
  induction l as [|r l IH]; simpl; [constructor|].
  by apply insert_row_sorted.
Qed.

Lemma forallb_perm {A} (f : A → bool) l1 l2 :
  l1 ≡ₚ l2 → forallb f l1 = forallb f l2.
Proof.
  induction 1 as [|x l1 l2 _ IH|x y l|l1 l2 l3 _ IH1 _ IH2]; simpl.
  - done.
  - by rewrite IH.
  - by destruct (f x), (f y).
  - by rewrite IH1.
Qed.

Lemma int64_keeps_types df1 df2 :
  index_names df1 = index_names df2 →
  int64_frame df1 = true → int64_frame df2 = true →
  keeps_types df1 df2 = true.
Proof.
  intros Hnames H1 H2. unfold keeps_types.
  rewrite bool_decide_eq_true_2 by done. rewrite H1, H2. simpl.
  by rewrite orb_true_r.
Qed.

Lemma empty_keeps_types df1 df2 :
  index_names df1 = index_names df2 →
  rows df1 = [] ∨ rows df2 = [] →
  keeps_types df1 df2 = true.
Proof.
  intros Hnames Hempty. unfold keeps_types.
  rewrite bool_decide_eq_true_2 by done. simpl.
  destruct Hempty as [H|H]; rewrite (bool_decide_eq_true_2 _ H); simpl;
    [done|]. by rewrite orb_true_r.
Qed.

Lemma keeps_types_names df1 df2 :
  keeps_types df1 df2 = true → index_names df1 = index_names df2.
Proof.
  unfold keeps_types. intros [H _]%andb_true_iff.
  by apply bool_decide_eq_true in H.
Qed.


(** Where the types are kept, the merge is the concatenation of the rows,
    sorted when [sortIndex] is set. *)
Lemma combineDataFrames_Exactly df1 df2 sortIndex :
  keeps_types df1 df2 = true →
  ∃ df, combineDataFrames df1 df2 sortIndex = Exactly df ∧
    index_names df = index_names df1 ∧
    ncols df = ncols df1 `max` ncols df2 ∧
    rows df = if sortIndex then sort_rows (rows df1 ++ rows df2)
              else rows df1 ++ rows df2.
Proof.
  intros Hk. unfold combineDataFrames, append. rewrite Hk.
  eexists. split; [done|]. by destruct sortIndex.
Qed.

(** The merge is left open exactly where the types are not kept. *)
Lemma combineDataFrames_NotModelled df1 df2 sortIndex :
  combineDataFrames df1 df2 sortIndex = NotModelled ↔ keeps_types df1 df2 = false.
Proof.
  unfold combineDataFrames, append. by destruct (keeps_types df1 df2).
Qed.

Lemma rows_if_sorted_perm (sortIndex : bool) l :
  (if sortIndex then sort_rows l else l) ≡ₚ l.
Proof. destruct sortIndex; [apply sort_rows_perm|done]. Qed.

(** ** combineDataFrames *)



(** C1, as the code has it: merging two frames over the same index names
    that have their column and hold integers of the int64 range only,
    which the merge leaves as they are, keeps every row of both. A
    coordinate tuple of the incoming frame that the existing frame already
    has is stored a second time, next to the previous value, and the point
    count [df.size] of the result is the sum of the two point counts. *)
Theorem combineDataFrames_keeps_all_rows df1 df2 sortIndex :
  index_names df1 = index_names df2 →
  int64_frame df1 = true → int64_frame df2 = true →
  ∃ df, combineDataFrames df1 df2 sortIndex = Exactly df ∧
    rows df ≡ₚ rows df1 ++ rows df2 ∧
    size_of df = size_of df1 + size_of df2 ∧
    ∀ t v1 v2, (t, v1) ∈ rows df1 → (t, v2) ∈ rows df2 →
      (t, v1) ∈ rows df ∧ (t, v2) ∈ rows df.
Proof.
  intros Hnames H1 H2.
  destruct (combineDataFrames_Exactly df1 df2 sortIndex
              (int64_keeps_types _ _ Hnames H1 H2))
    as (df & Hdf & _ & Hncols & Hrows).
  assert (rows df ≡ₚ rows df1 ++ rows df2) as Hp
    by (rewrite Hrows; apply rows_if_sorted_perm).
  exists df. split_and!; [done..| |].
  - unfold int64_frame in H1, H2.
    apply andb_true_iff in H1 as [Hc1%bool_decide_eq_true _].
    apply andb_true_iff in H2 as [Hc2%bool_decide_eq_true _].
    unfold size_of. rewrite Hncols, Hc1, Hc2, Hp, length_app. simpl. lia.
  - intros t v1 v2 Hin1 Hin2. rewrite !Hp, !elem_of_app. auto.
Qed.

Lemma combineDataFrames_keeps_all_rows_witness :
  ∃ df, combineDataFrames existing_frame incoming_frame true = Exactly df ∧
    size_of df = 1 + 1.
Proof.
  destruct (combineDataFrames_keeps_all_rows existing_frame incoming_frame true)
    as (df & Hdf & _ & Hsize & _); [reflexivity..|].
  exists df. split; [exact Hdf|exact Hsize].
Defined.

(** C1 fails on the example of the specification: merging the existing
    [(1,2) -> 5] with the incoming [(1,2) -> 7] gives a frame of two rows,
    the old value still present, not the single row [(1,2) -> 7], and its
    point count is 2, not that of the existing frame. *)
Lemma combineDataFrames_does_not_overwrite :
  ∃ df, combineDataFrames existing_frame incoming_frame true = Exactly df ∧
    rows df = [([1; 2]%Z, Some 5%Z); ([1; 2]%Z, Some 7%Z)] ∧
    rows df ≠ [([1; 2]%Z, Some 7%Z)] ∧
    size_of df = 2 ∧ size_of df ≠ size_of existing_frame.
Proof.
  eexists. split; [reflexivity|]. split; [reflexivity|].
  split; [discriminate|]. split; [reflexivity|discriminate].
Qed.

(** ** zip *)

Lemma zip_star_lookup cols i :
  cols ≠ [] → zip_star cols !! i = mapM (λ c : list scalar, c !! i) cols.
Proof.
  induction cols as [|c cs IH]; [done|]. intros _.
  destruct cs as [|c' cs].
  - simpl. rewrite list_lookup_fmap. by destruct (c !! i).
  - change (zip_star (c :: c' :: cs))
      with (zip_with cons c (zip_star (c' :: cs))).
    rewrite lookup_zip_with, IH by done.
    change (mapM (λ c0 : list scalar, c0 !! i) (c :: c' :: cs))
      with (y ← c !! i; k ← mapM (λ c0 : list scalar, c0 !! i) (c' :: cs); mret (y :: k)).
    done.
Qed.

Lemma length_zip_star cols : length (zip_star cols) = shortest cols.
Proof.
  induction cols as [|c cs IH]; [done|].
  destruct cs as [|c' cs].
  - simpl. by rewrite length_fmap.
  - change (zip_star (c :: c' :: cs))
      with (zip_with cons c (zip_star (c' :: cs))).
    rewrite length_zip_with, IH. done.
Qed.

Lemma shortest_same cols n :
  cols ≠ [] → Forall (λ c, length c = n) cols → shortest cols = n.
Proof.
  induction cols as [|c cs IH]; [done|]. intros _ Hall.
  apply Forall_cons in Hall as [Hc Hcs].
  destruct cs as [|c' cs]; [done|].
  change (length c `min` shortest (c' :: cs) = n).
  rewrite IH by done. lia.
Qed.

Lemma zip_star_tuple_length cols t :
  t ∈ zip_star cols → length t = length cols.
Proof.
  intros [i Hi]%list_elem_of_lookup.
  destruct cols as [|c cs]; [done|].
  rewrite zip_star_lookup in Hi by done.
  symmetry. by eapply length_mapM.
Qed.

(** ** Exceptions *)

Lemma bind_Ok_inv {A B} (m : result A) (f : A → result B) b :
  m ≫= f = Ok b → ∃ a, m = Ok a ∧ f a = Ok b.
Proof. destruct m as [a|e]; [eauto|done]. Qed.

Lemma raises_bind {A B} (m : result A) (f : A → result B) :
  raises m → raises (m ≫= f).
Proof. intros [e ->]. by exists e. Qed.

Lemma mapM_result_Ok {A B} (f : A → result B) l k :
  Forall2 (λ x y, f x = Ok y) l k → mapM f l = Ok k.
Proof.
  induction 1 as [|x y l k Hx _ IH]; [done|].
  change (mapM f (x :: l)) with (y ← f x; k ← mapM f l; mret (y :: k)).
  by rewrite Hx, IH.
Qed.

Lemma mapM_result_Ok_inv {A B} (f : A → result B) l k :
  mapM f l = Ok k → Forall2 (λ x y, f x = Ok y) l k.
Proof.
  revert k. induction l as [|x l IH]; intros k.
  - intros [= <-]. constructor.
  - change (mapM f (x :: l)) with (y ← f x; k ← mapM f l; mret (y :: k)).
    intros (y & Hy & (k' & Hk' & [= <-])%bind_Ok_inv)%bind_Ok_inv.
    constructor; auto.
Qed.

Lemma mapM_result_raises {A B} (f : A → result B) l x :
  x ∈ l → raises (f x) → raises (mapM f l).
Proof.
  intros Hx Hf. induction l as [|y l IH]; [by apply elem_of_nil in Hx|].
  change (mapM f (y :: l)) with (z ← f y; k ← mapM f l; mret (z :: k)).
  apply elem_of_cons in Hx as [->|Hx].
  - by apply raises_bind.
  - destruct (f y) as [z|e]; [|by apply raises_bind; exists e].
    apply (raises_bind (mapM f l)). auto.
Qed.

(** ** Dictionaries *)

Lemma dict_get_keys {K V} `{EqDecision K} (k : K) (d : pydict K V) v :
  dict_get k d = Some v → k ∈ dict_keys d.
Proof.
  induction d as [|[k' v'] d IH]; simpl; [done|].
  case_decide; subst; [left|right; auto].
Qed.

Lemma dict_get_None {K V} `{EqDecision K} (k : K) (d : pydict K V) :
  dict_get k d = None ↔ k ∉ dict_keys d.
Proof.
  induction d as [|[k' v'] d IH]; simpl.
  - split; [intros _; apply not_elem_of_nil|done].
  - rewrite not_elem_of_cons. case_decide; subst; [|tauto].
    split; [done|tauto].
Qed.

Lemma dict_set_fresh {K V} `{EqDecision K} (k : K) (v : V) (d : pydict K V) :
  k ∉ dict_keys d → dict_set k v d = d ++ [(k, v)].
Proof.
  induction d as [|[k' v'] d IH]; simpl; [done|].
  rewrite not_elem_of_cons. intros [Hne Hk].
  case_decide; [done|]. by rewrite IH.
Qed.

(** ** One round of dictToDataFrames *)

Lemma coord_Ok dataDict a col :
  axis_values dataDict a col → coord dataDict a = Ok (a, col).
Proof. intros (d & Hd & Hv). unfold coord, dict_item. rewrite Hd; simpl. by rewrite Hv. Qed.

Lemma coord_Ok_inv dataDict a c :
  coord dataDict a = Ok c → c.1 = a ∧ axis_values dataDict a c.2.
Proof.
  unfold coord, dict_item, axis_values.
  destruct (dict_get a dataDict) as [d|]; [|done]. simpl.
  destruct (d_values d) as [v|] eqn:Hv; [|done]. intros [= <-]. eauto.
Qed.

Lemma coords_Ok dataDict axs cols :
  Forall2 (axis_values dataDict) axs cols →
  mapM (coord dataDict) axs = Ok (zip axs cols).
Proof.
  intros Hall. apply mapM_result_Ok.
  induction Hall; simpl; constructor; auto using coord_Ok.
Qed.

Lemma coords_Ok_inv dataDict axs coords :
  mapM (coord dataDict) axs = Ok coords →
  Forall2 (axis_values dataDict) axs coords.*2.
Proof.
  intros Hall%mapM_result_Ok_inv.
  induction Hall as [|a c axs coords Hc%coord_Ok_inv _ IH]; simpl;
    constructor; [tauto|done].
Qed.

Lemma frameOf_axis dataDict n d :
  dict_get n dataDict = Some d → d_axes d = None → frameOf dataDict n = Ok None.
Proof. intros Hd Ha. unfold frameOf, dict_item. by rewrite Hd; simpl; rewrite Ha. Qed.

Lemma frameOf_data dataDict n vals axs cols :
  dict_get n dataDict = Some (mkDescriptor (Some vals) (Some axs)) →
  Forall2 (axis_values dataDict) axs cols →
  frameOf dataDict n =
    (mi ← MultiIndex_from_tuples (zip_star cols) axs;
     df ← DataFrame_new vals mi;
     Ok (Some (set_columns_name df n))).
Proof.
  intros Hd Hcols. unfold frameOf, dict_item. rewrite Hd; simpl.
  rewrite (coords_Ok _ _ _ Hcols); simpl.
  rewrite snd_zip; [done|]. by rewrite (Forall2_length _ _ _ Hcols).
Qed.

Lemma MultiIndex_from_tuples_Ok tuples names mi :
  MultiIndex_from_tuples tuples names = Ok mi →
  mi = mkMultiIndex names tuples.
Proof.
  unfold MultiIndex_from_tuples. destruct tuples as [|t tuples].
  - destruct names; [done|]. by intros [= <-].
  - case_decide as Hlen; [|done]. by intros [= <-].
Qed.

Lemma DataFrame_new_Ok vals mi df :
  DataFrame_new vals mi = Ok df →
  columns_name df = None ∧ index_names df = mi_names mi ∧
  index df = mi_tuples mi ∧
  (vals = [] ∧ ncols df = 0 ∨
   length vals = length (mi_tuples mi) ∧ ncols df = 1 ∧
     rows df = zip (mi_tuples mi) (Some <$> vals)).
Proof.
  unfold DataFrame_new, index. destruct vals as [|v vals].
  - intros [= <-]; simpl. split_and!; [done..| |by left].
    rewrite <-list_fmap_compose. apply list_fmap_id.
  - case_decide as Hlen; [|done]. intros [= <-]; simpl.
    split_and!; [done..| |by right].
    apply fst_zip. simpl in *. rewrite length_fmap. lia.
Qed.

Lemma DataFrame_new_same_length vals mi :
  length vals = length (mi_tuples mi) →
  ∃ df, DataFrame_new vals mi = Ok df ∧
    rows df = zip (mi_tuples mi) (Some <$> vals).
Proof.
  intros Hlen. unfold DataFrame_new. destruct vals as [|v vals].
  - eexists; split; [done|]. simpl.
    symmetry in Hlen. by apply length_zero_iff_nil in Hlen as ->.
  - rewrite decide_True by done. eauto.
Qed.

Lemma DataFrame_new_raises vals mi :
  vals ≠ [] → length vals ≠ length (mi_tuples mi) →
  DataFrame_new vals mi = Raise ValueError.
Proof.
  intros Hne Hlen. unfold DataFrame_new. destruct vals; [done|].
  by rewrite decide_False.
Qed.

Lemma frameOf_Some_inv dataDict n df :
  frameOf dataDict n = Ok (Some df) →
  ∃ vals axs cols,
    dict_get n dataDict = Some (mkDescriptor (Some vals) (Some axs)) ∧
    Forall2 (axis_values dataDict) axs cols ∧
    columns_name df = Some n ∧ index_names df = axs ∧
    index df = zip_star cols ∧
    (vals = [] ∧ ncols df = 0 ∨
     length vals = length (zip_star cols) ∧ ncols df = 1 ∧
       rows df = zip (zip_star cols) (Some <$> vals)).
Proof.
  unfold frameOf, dict_item.
  destruct (dict_get n dataDict) as [[ovals oaxs]|]; [|done]; simpl.
  destruct oaxs as [axs|]; [|done].
  destruct ovals as [vals|]; [|done]; simpl.
  intros (coords & Hcoords & Hrest)%bind_Ok_inv.
  apply bind_Ok_inv in Hrest as (mi & ->%MultiIndex_from_tuples_Ok & Hrest).
  apply bind_Ok_inv in Hrest as (df0 & Hdf0 & [= <-]).
  apply DataFrame_new_Ok in Hdf0 as (_ & Hnames & Hindex & Hrows).
  exists vals, axs, (coords.*2).
  split_and!; [done|by apply coords_Ok_inv|done..].
Qed.

(** ** The loop of dictToDataFrames *)

Lemma framesOf_raises dataDict keys n :
  n ∈ keys → raises (frameOf dataDict n) → raises (framesOf dataDict keys).
Proof.
  intros Hn Hf. induction keys as [|k keys IH]; [by apply elem_of_nil in Hn|].
  simpl. apply elem_of_cons in Hn as [->|Hn].
  - by apply raises_bind.
  - destruct (frameOf dataDict k) as [o|e]; [|by apply raises_bind; exists e].
    apply (raises_bind (framesOf dataDict keys)). auto.
Qed.

Lemma framesOf_Ok_inv dataDict keys dfs df :
  framesOf dataDict keys = Ok dfs → df ∈ dfs →
  ∃ n, n ∈ keys ∧ frameOf dataDict n = Ok (Some df).
Proof.
  revert dfs. induction keys as [|k keys IH]; simpl; intros dfs.
  - intros [= <-] Hdf. by apply elem_of_nil in Hdf.
  - intros (o & Ho & (dfs' & Hdfs' & [= <-])%bind_Ok_inv)%bind_Ok_inv Hdf.
    assert (df ∈ dfs' → ∃ n, n ∈ k :: keys ∧ frameOf dataDict n = Ok (Some df)).
    { intros (n & Hn & Hf)%(IH dfs' Hdfs'). exists n. split; [by right|done]. }
    destruct o as [df'|]; [|auto].
    apply elem_of_cons in Hdf as [->|Hdf]; [|auto].
    exists k. split; [by left|done].
Qed.

Lemma framesOf_names dataDict keys dfs :
  framesOf dataDict keys = Ok dfs →
  (columns_name <$> dfs) `sublist_of` (Some <$> keys).
Proof.
  revert dfs. induction keys as [|k keys IH]; simpl; intros dfs.
  - intros [= <-]. constructor.
  - intros (o & Ho & (dfs' & Hdfs' & [= <-])%bind_Ok_inv)%bind_Ok_inv.
    destruct o as [df'|]; simpl.
    + apply frameOf_Some_inv in Ho as (_ & _ & _ & _ & _ & -> & _).
      apply sublist_skip; auto.
    + apply sublist_cons; auto.
Qed.

Lemma dictToDataFrames_names dataDict dfs :
  NoDup (dict_keys dataDict) → dictToDataFrames dataDict = Ok dfs →
  NoDup (columns_name <$> dfs).
Proof.
  intros Hnd Hdfs%framesOf_names.
  eapply sublist_NoDup; [apply (NoDup_fmap_2 _), Hnd|exact Hdfs].
Qed.

(** ** The Cartesian grid *)

Lemma length_cartesian sets : length (cartesian sets) = grid_size sets.
Proof.
  induction sets as [|s sets IH]; simpl; [done|].
  rewrite <-IH. clear IH.
  induction s as [|x s IHs]; [done|]. csimpl.
  by rewrite length_app, length_fmap, IHs.
Qed.

Lemma NoDup_cartesian sets : Forall NoDup sets → NoDup (cartesian sets).
Proof.
  induction 1 as [|s sets Hs _ IH]; simpl.
  - apply NoDup_singleton.
  - apply NoDup_bind; [| |done].
    + intros x1 x2 t _ _ (t1 & -> & _)%list_elem_of_fmap
        (t2 & [= -> _] & _)%list_elem_of_fmap. done.
    + intros x _. by apply (NoDup_fmap_2 _).
Qed.

(** ** dictToDataFrames *)

Lemma MultiIndex_from_tuples_zip cols names :
  cols ≠ [] → length names = length cols →
  MultiIndex_from_tuples (zip_star cols) names
    = Ok (mkMultiIndex names (zip_star cols)).
Proof.
  intros Hne Hlen. unfold MultiIndex_from_tuples.
  destruct (zip_star cols) as [|t tuples] eqn:Hz.
  - destruct names; [|done]. by destruct cols.
  - rewrite decide_True; [done|]. rewrite Hlen. symmetry.
    apply zip_star_tuple_length. rewrite Hz. left.
Qed.

Lemma framesOf_single dataDict keys n df :
  NoDup keys →
  frameOf dataDict n = Ok (Some df) →
  (∀ k, k ∈ keys → k ≠ n → frameOf dataDict k = Ok None) →
  framesOf dataDict keys = Ok (if decide (n ∈ keys) then [df] else []).
Proof.
  intros Hnd Hn Hother. induction Hnd as [|k keys Hk Hnd IH]; [done|].
  simpl. rewrite IH by (intros; apply Hother; [by right|done]). clear IH.
  destruct (decide (k = n)) as [->|Hne].
  - rewrite Hn; simpl. rewrite decide_False by done.
    rewrite decide_True by left. done.
  - rewrite Hother by (done || left); simpl.
    destruct (decide (n ∈ keys)) as [Hin|Hin].
    + rewrite decide_True by (by right). done.
    + rewrite decide_False; [done|]. rewrite not_elem_of_cons. auto.
Qed.

Lemma NoDup_fst_functional {A B} (l : list (A * B)) x y1 y2 :
  NoDup l.*1 → (x, y1) ∈ l → (x, y2) ∈ l → y1 = y2.
Proof.
  induction l as [|[a b] l IH]; csimpl; [by intros _ ?%elem_of_nil|].
  intros [Ha Hnd]%NoDup_cons [[= -> ->]|H1]%elem_of_cons [[= ->]|H2]%elem_of_cons;
    [done| | |by eauto].
  - destruct Ha. by apply (list_elem_of_fmap_2 fst _ (a, y2)).
  - destruct Ha. by apply (list_elem_of_fmap_2 fst _ (a, y1)).
Qed.

(** C2: a message with one data array [n] whose axes are all present, as
    long as the data, and enumerate the full grid over coordinate sets of
    sizes s1..sn is structured into one frame. The frame has
    s1 * ... * sn rows with pairwise distinct coordinate tuples, and row
    [i] pairs the tuple found at position [i] of the axis arrays with the
    value at position [i] of the data array; so each tuple maps to one
    value, its own. *)
Theorem dictToDataFrames_round_trip
    (dataDict : pydict string descriptor) (n : string) (vals : list scalar)
    (axs : list string) (cols sets : list (list scalar)) :
  NoDup (dict_keys dataDict) →
  dict_get n dataDict = Some (mkDescriptor (Some vals) (Some axs)) →
  (∀ k d, dict_get k dataDict = Some d → k ≠ n → d_axes d = None) →
  Forall2 (axis_values dataDict) axs cols →
  Forall (λ col, length col = length vals) cols →
  length sets = length axs →
  Forall NoDup sets →
  zip_star cols ≡ₚ cartesian sets →
  ∃ df, dictToDataFrames dataDict = Ok [df] ∧
    columns_name df = Some n ∧ index_names df = axs ∧
    length (rows df) = grid_size sets ∧
    NoDup (index df) ∧
    (∀ i v, vals !! i = Some v →
       ∃ t, mapM (λ c : list scalar, c !! i) cols = Some t ∧
            rows df !! i = Some (t, Some v)) ∧
    (∀ t v v', (t, v) ∈ rows df → (t, v') ∈ rows df → v = v').
Proof.
  intros Hkeys Hn Hsingle Hcols Hlens Hsets Hnd Hgrid.
  assert (cols ≠ []) as Hne.
  { intros ->. apply Forall2_nil_inv_r in Hcols as ->.
    destruct sets; [|done]. by apply Permutation_nil_cons in Hgrid. }
  assert (length (zip_star cols) = length vals) as Hlen.
  { rewrite length_zip_star. by apply shortest_same. }
  destruct (DataFrame_new_same_length vals (mkMultiIndex axs (zip_star cols)))
    as (df0 & Hdf0 & Hrows); [done|]. simpl in Hrows.
  assert (frameOf dataDict n = Ok (Some (set_columns_name df0 n))) as Hframe.
  { rewrite (frameOf_data _ _ _ _ _ Hn Hcols).
    rewrite MultiIndex_from_tuples_zip by (done || by eapply Forall2_length).
    simpl. by rewrite Hdf0. }
  assert ((rows df0).*1 = zip_star cols) as Hindex.
  { rewrite Hrows. apply fst_zip. rewrite length_fmap. lia. }
  exists (set_columns_name df0 n). split_and!.
  - unfold dictToDataFrames.
    rewrite (framesOf_single _ _ n (set_columns_name df0 n)); [|done..|].
    + rewrite decide_True; [done|]. by eapply dict_get_keys.
    + intros k Hk Hkn.
      destruct (dict_get k dataDict) as [d|] eqn:Hd.
      * eapply frameOf_axis; eauto.
      * by apply dict_get_None in Hd.
  - done.
  - by pose proof (DataFrame_new_Ok _ _ _ Hdf0) as (_ & Hnames & _).
  - simpl. rewrite <-length_cartesian, <-Hgrid, <-Hindex. by rewrite length_fmap.
  - unfold index; simpl. rewrite Hindex, Hgrid. by apply NoDup_cartesian.
  - intros i v Hv; simpl.
    destruct (lookup_lt_is_Some_2 (zip_star cols) i) as [t Ht].
    { rewrite Hlen. by eapply lookup_lt_Some. }
    exists t. split; [by rewrite <-zip_star_lookup|].
    rewrite Hrows, lookup_zip_with, Ht, list_lookup_fmap, Hv. done.
  - intros t v v'; simpl. apply NoDup_fst_functional.
    rewrite Hindex, Hgrid. by apply NoDup_cartesian.
Qed.

Lemma dictToDataFrames_round_trip_witness :
  ∃ df, dictToDataFrames grid_message = Ok [df] ∧
    length (rows df) = 2 * 2 ∧ NoDup (index df) ∧
    rows df !! 2 = Some ([2; 1]%Z, Some 30%Z).
Proof.
  destruct (dictToDataFrames_round_trip grid_message "z" [10; 20; 30; 40]%Z
              ["x"; "y"] [[1; 1; 2; 2]; [1; 2; 1; 2]]%Z [[1; 2]; [1; 2]]%Z)
    as (df & Hdf & _ & _ & Hlen & Hnd & Hrow & _).
  - apply (bool_decide_unpack _). vm_compute. exact I.
  - reflexivity.
  - intros k d Hk Hne. simpl in Hk.
    repeat case_decide; simplify_eq; done.
  - repeat constructor; eexists; split; reflexivity.
  - repeat constructor.
  - reflexivity.
  - repeat constructor; apply (bool_decide_unpack _); vm_compute; exact I.
  - reflexivity.
  - exists df. split_and!; [done..|].
    destruct (Hrow 2 30%Z) as (t & [= <-] & Ht); [reflexivity|done].
Defined.

Lemma mapM_result_Raise_inv {A B} (f : A → result B) l e :
  mapM f l = Raise e → ∃ x, x ∈ l ∧ f x = Raise e.
Proof.
  induction l as [|x l IH]; [done|].
  change (mapM f (x :: l)) with (y ← f x; k ← mapM f l; mret (y :: k)).
  destruct (f x) as [y|e'] eqn:Hx; simpl.
  - destruct (mapM f l) as [k|e'] eqn:Hl; [done|]. simpl. intros [= ->].
    destruct IH as (x' & Hin & Hx'); [done|]. exists x'. split; [by right|done].
  - intros [= ->]. exists x. split; [left|done].
Qed.

(** The exceptions that structuring can raise. *)
Lemma frameOf_Raise_inv dataDict n e :
  frameOf dataDict n = Raise e → (∃ k, e = KeyError k) ∨ e = ValueError.
Proof.
  unfold frameOf, dict_item.
  destruct (dict_get n dataDict) as [[ovals oaxs]|]; simpl;
    [|intros [= <-]; eauto].
  destruct oaxs as [axs|]; [|done].
  destruct ovals as [vals|]; simpl; [|intros [= <-]; eauto].
  destruct (mapM (coord dataDict) axs) as [coords|e'] eqn:Hcoords; simpl.
  - destruct (MultiIndex_from_tuples (zip_star coords.*2) axs) as [mi|e'] eqn:Hmi;
      simpl.
    + destruct (DataFrame_new vals mi) as [df|e'] eqn:Hdf; [done|]. simpl.
      intros [= ->]. right. unfold DataFrame_new in Hdf.
      destruct vals; [done|]. case_decide; [done|]. congruence.
    + intros [= ->]. right. unfold MultiIndex_from_tuples in Hmi.
      destruct (zip_star coords.*2); [destruct axs; congruence|].
      case_decide; [done|]. congruence.
  - intros [= ->]. left.
    apply mapM_result_Raise_inv in Hcoords as (a & _ & Ha).
    unfold coord, dict_item in Ha.
    destruct (dict_get a dataDict) as [da|]; simpl in Ha;
      [|injection Ha as <-; by eexists].
    destruct (d_values da); simpl in Ha; [done|].
    injection Ha as <-. by eexists.
Qed.

Lemma framesOf_Raise_inv dataDict keys e :
  framesOf dataDict keys = Raise e → (∃ k, e = KeyError k) ∨ e = ValueError.
Proof.
  induction keys as [|n keys IH]; simpl; [done|].
  destruct (frameOf dataDict n) as [o|e'] eqn:Hn; simpl.
  - destruct (framesOf dataDict keys) as [dfs|e']; [done|]. simpl.
    intros [= ->]. by apply IH.
  - intros [= ->]. by eapply frameOf_Raise_inv.
Qed.

Lemma frameOf_missing_axis dataDict n vals axs a :
  dict_get n dataDict = Some (mkDescriptor (Some vals) (Some axs)) →
  a ∈ axs → dict_get a dataDict = None →
  raises (frameOf dataDict n).
Proof.
  intros Hn Ha Hnone. unfold frameOf, dict_item. rewrite Hn; simpl.
  apply raises_bind, (mapM_result_raises _ _ a); [done|].
  exists (KeyError a). unfold coord, dict_item. by rewrite Hnone.
Qed.

Lemma frameOf_wrong_length dataDict n vals axs cols :
  dict_get n dataDict = Some (mkDescriptor (Some vals) (Some axs)) →
  Forall2 (axis_values dataDict) axs cols →
  vals ≠ [] → length vals ≠ shortest cols →
  raises (frameOf dataDict n).
Proof.
  intros Hn Hcols Hne Hlen. rewrite (frameOf_data _ _ _ _ _ Hn Hcols).
  destruct (MultiIndex_from_tuples (zip_star cols) axs) as [mi|e] eqn:Hmi;
    [|by exists e].
  apply MultiIndex_from_tuples_Ok in Hmi as ->. simpl.
  rewrite DataFrame_new_raises; [by exists ValueError|done|].
  simpl. by rewrite length_zip_star.
Qed.

(** C3, as the code has it: structuring raises a [KeyError] or a
    [ValueError], and returns no frame at all, when a data array names an
    axis that the message does not have or when its non-empty value list
    is not as long as the shortest of its axis arrays; [addData] then
    leaves the window untouched. Axis arrays of unequal lengths are not
    rejected as such: [zip] cuts them to the shortest. *)
Theorem dictToDataFrames_rejects dataDict n vals axs :
  dict_get n dataDict = Some (mkDescriptor (Some vals) (Some axs)) →
  (∃ a, a ∈ axs ∧ dict_get a dataDict = None) ∨
  (∃ cols, Forall2 (axis_values dataDict) axs cols ∧
     vals ≠ [] ∧ length vals ≠ shortest cols) →
  ∃ e, dictToDataFrames dataDict = Raise e ∧
    ((∃ k, e = KeyError k) ∨ e = ValueError) ∧
    ∀ w id update,
      addData w (mkMessage id update (Some dataDict)) = (w, Raised e).
Proof.
  intros Hn Hbad.
  assert (raises (frameOf dataDict n)) as Hraises.
  { destruct Hbad as [(a & Ha & Hnone)|(cols & Hcols & Hne & Hlen)].
    - by eapply frameOf_missing_axis.
    - by eapply frameOf_wrong_length. }
  destruct (framesOf_raises dataDict (dict_keys dataDict) n) as [e He];
    [by eapply dict_get_keys|done|].
  exists e. split; [done|]. split; [by eapply framesOf_Raise_inv|].
  intros w id update.
  unfold addData; simpl. destruct dataDict as [|entry dataDict]; [done|].
  unfold dictToDataFrames. by rewrite He.
Qed.

Lemma dictToDataFrames_rejects_witness :
  ∃ e, dictToDataFrames dangling_message = Raise e ∧
    ((∃ k, e = KeyError k) ∨ e = ValueError) ∧
    ∀ w id update,
      addData w (mkMessage id update (Some dangling_message)) = (w, Raised e).
Proof.
  apply (dictToDataFrames_rejects dangling_message "z" [5; 7]%Z ["x"; "y"]).
  - reflexivity.
  - left. exists "y". split; [|reflexivity].
    apply elem_of_cons. right. apply elem_of_cons. left. reflexivity.
Defined.

(** C3 fails for axis arrays of unequal lengths: with [x] of length 3 and
    [y] of length 4 the message is structured without any error, into a
    frame of three rows. *)
Lemma dictToDataFrames_accepts_unequal_axes :
  dictToDataFrames ragged_message
    = Ok [mkDataFrame (Some "z") ["x"; "y"] 1
            [([1; 1]%Z, Some 10%Z); ([2; 2]%Z, Some 20%Z); ([3; 3]%Z, Some 30%Z)]] ∧
  ¬ raises (dictToDataFrames ragged_message).
Proof. split; [reflexivity|]. by intros [e He]. Qed.

(** C9, as the code has it: the index of a frame that [dictToDataFrames]
    produces is the list of positional tuples of the referenced axis
    arrays, repetitions included, so its coordinate tuples are unique
    exactly when those tuples are; and for two frames over the same index
    names whose integer types the merge keeps, the merge is a frame whose
    coordinate tuples are unique exactly when those of both operands are
    and the operands share none. *)
Theorem coordinate_tuples_unique_iff :
  (∀ dataDict dfs df,
     dictToDataFrames dataDict = Ok dfs → df ∈ dfs →
     ∃ n vals axs cols,
       dict_get n dataDict = Some (mkDescriptor (Some vals) (Some axs)) ∧
       Forall2 (axis_values dataDict) axs cols ∧
       columns_name df = Some n ∧
       index df = zip_star cols ∧
       (NoDup (index df) ↔ NoDup (zip_star cols))) ∧
  (∀ df1 df2 sortIndex,
     keeps_types df1 df2 = true →
     ∃ df, combineDataFrames df1 df2 sortIndex = Exactly df ∧
       (NoDup (index df) ↔
          NoDup (index df1) ∧ (∀ t, t ∈ index df1 → t ∉ index df2) ∧
          NoDup (index df2))).
Proof.
  split.
  - intros dataDict dfs df Hdfs Hdf.
    destruct (framesOf_Ok_inv _ _ _ _ Hdfs Hdf) as (n & _ & Hn).
    apply frameOf_Some_inv in Hn
      as (vals & axs & cols & Hget & Hcols & Hname & _ & Hindex & _).
    exists n, vals, axs, cols. by rewrite Hindex.
  - intros df1 df2 sortIndex Hk.
    destruct (combineDataFrames_Exactly df1 df2 sortIndex Hk)
      as (df & Hdf & _ & _ & Hrows).
    exists df. split; [done|].
    assert (index df ≡ₚ index df1 ++ index df2) as ->.
    { unfold index. rewrite Hrows, rows_if_sorted_perm. by rewrite fmap_app. }
    apply NoDup_app.
Qed.

Lemma coordinate_tuples_unique_iff_witness :
  (∃ cols, index grid_frame = zip_star cols) ∧
  (∃ df, combineDataFrames existing_frame incoming_frame true = Exactly df ∧
     ¬ NoDup (index df)).
Proof.
  destruct coordinate_tuples_unique_iff as [Hstructure Hmerge]. split.
  - destruct (Hstructure grid_message [grid_frame] grid_frame)
      as (n & vals & axs & cols & _ & _ & _ & Hindex & _); [reflexivity|left|].
    exists cols. exact Hindex.
  - destruct (Hmerge existing_frame incoming_frame true) as (df & Hdf & Hiff);
      [reflexivity|].
    exists df. split; [exact Hdf|]. rewrite Hiff. intros (_ & Hdisjoint & _).
    apply (Hdisjoint [1; 2]%Z); left.
Defined.

(** C9 fails for both functions: an axis array that repeats a coordinate
    is structured into a frame that has the tuple twice, and merging two
    frames that share a tuple gives a frame that has it twice. *)
Lemma coordinate_tuples_repeated :
  (∃ df, dictToDataFrames repeated_message = Ok [df] ∧
     index df = [[1]; [1]]%Z ∧ ¬ NoDup (index df)) ∧
  (∃ df, combineDataFrames existing_frame incoming_frame true = Exactly df ∧
     index df = [[1; 2]; [1; 2]]%Z ∧ ¬ NoDup (index df)).
Proof.
  split.
  - eexists. split; [reflexivity|]. split; [reflexivity|].
    intros [Hin _]%NoDup_cons. apply Hin. left.
  - eexists. split; [reflexivity|]. split; [reflexivity|].
    intros [Hin _]%NoDup_cons. apply Hin. left.
Qed.

(** ** addData *)

Lemma dict_get_set {K V} `{EqDecision K} (k k' : K) (v : V) (d : pydict K V) :
  dict_get k (dict_set k' v d) = if decide (k = k') then Some v else dict_get k d.
Proof.
  induction d as [|[k0 v0] d IH]; simpl.
  - done.
  - destruct (decide (k' = k0)) as [->|Hne]; simpl.
    + by destruct (decide (k = k0)).
    + rewrite IH. destruct (decide (k = k0)) as [->|]; [|done].
      by rewrite decide_False.
Qed.

Lemma storeFrame_other st dfs k :
  k ∉ columns_name <$> dfs →
  (foldl storeFrame st dfs).2 !! k = st.2 !! k ∧
  dict_get k (foldl storeFrame st dfs).1 = dict_get k st.1.
Proof.
  revert st. induction dfs as [|df dfs IH]; intros st; csimpl; [done|].
  intros [Hne Hk]%not_elem_of_cons.
  destruct (IH (storeFrame st df) Hk) as [-> ->]. simpl.
  rewrite lookup_insert_ne by done.
  by rewrite dict_get_set, decide_False.
Qed.

Lemma storeFrame_stored st dfs df :
  NoDup (columns_name <$> dfs) → df ∈ dfs →
  (foldl storeFrame st dfs).2 !! columns_name df = Some df.
Proof.
  revert st. induction dfs as [|df' dfs IH]; intros st; csimpl;
    [by intros _ ?%elem_of_nil|].
  intros [Hfresh Hnd]%NoDup_cons [->|Hdf]%elem_of_cons; [|by apply IH].
  destruct (storeFrame_other (storeFrame st df') dfs (columns_name df') Hfresh)
    as [-> _].
  simpl. apply lookup_insert_eq.
Qed.

Lemma storeFrame_structure ds d dfs :
  NoDup (dict_keys ds ++ (columns_name <$> dfs)) →
  (foldl storeFrame (ds, d) dfs).1 = ds ++ structureOfAll dfs.
Proof.
  revert ds d. induction dfs as [|df dfs IH]; intros ds d; csimpl.
  - intros _. by rewrite app_nil_r.
  - intros Hnd. unfold storeFrame at 2; simpl.
    apply NoDup_app in Hnd as (Hds & Hdisj & [Hdf Hdfs]%NoDup_cons).
    rewrite dict_set_fresh by (intros Hin; apply (Hdisj _ Hin); left).
    rewrite IH.
    + by rewrite <-app_assoc.
    + unfold dict_keys. rewrite fmap_app; simpl.
      rewrite <-app_assoc; simpl. apply NoDup_app. split_and!; [done| |by constructor].
      intros k Hk. by apply Hdisj.
Qed.

Lemma addData_create w dataDict dd dfs :
  default false (msg_update dataDict) = false →
  msg_datasets dataDict = Some dd → dd ≠ [] →
  dictToDataFrames dd = Ok dfs →
  addData w dataDict =
    (mkDataWindow (dataId w) (foldl storeFrame ([], data w) dfs).2
       (Some (foldl storeFrame ([], data w) dfs).1), Returned).
Proof.
  intros Hupd Hdd Hne Hdfs. unfold addData. rewrite Hupd, Hdd.
  destruct dd; [done|]. by rewrite Hdfs.
Qed.

Lemma dictToDataFrames_name_in_keys dataDict dfs X :
  dictToDataFrames dataDict = Ok dfs →
  Some X ∈ columns_name <$> dfs → X ∈ dict_keys dataDict.
Proof.
  intros Hdfs (df & Hname & Hdf)%list_elem_of_fmap.
  destruct (framesOf_Ok_inv _ _ _ _ Hdfs Hdf) as (n & Hn & Hframe).
  apply frameOf_Some_inv in Hframe as (_ & _ & _ & _ & _ & Hname' & _).
  congruence.
Qed.

(** C10: when a window stores a frame under the array name [X] and a
    message without the update flag does not list [X] among its datasets,
    [addData] leaves the frame stored under [X] as it is; and when the
    message has datasets that are structured, the rebuilt [dataStructure]
    has no entry for [X]. *)
Theorem addData_keeps_unlisted_array w dataDict X df :
  data w !! Some X = Some df →
  default false (msg_update dataDict) = false →
  (∀ dd, msg_datasets dataDict = Some dd → dict_get X dd = None) →
  data (addData w dataDict).1 !! Some X = Some df ∧
  (∀ dd dfs,
     msg_datasets dataDict = Some dd → dd ≠ [] →
     dictToDataFrames dd = Ok dfs →
     (addData w dataDict).2 = Returned ∧
     ∃ ds, dataStructure (addData w dataDict).1 = Some ds ∧
           dict_get (Some X) ds = None).
Proof.
  intros HX Hupd Hunlisted.
  assert (∀ dd dfs, msg_datasets dataDict = Some dd →
            dictToDataFrames dd = Ok dfs → Some X ∉ columns_name <$> dfs)
    as Hfresh.
  { intros dd dfs Hdd Hdfs Hin.
    apply (dictToDataFrames_name_in_keys _ _ _ Hdfs) in Hin.
    by apply (dict_get_None X dd); [apply Hunlisted|]. }
  split.
  - unfold addData. rewrite Hupd.
    destruct (msg_datasets dataDict) as [[|entry dd]|] eqn:Hdd; [done| |done].
    destruct (dictToDataFrames (entry :: dd)) as [dfs|e] eqn:Hdfs; [|done].
    simpl.
    by rewrite (proj1 (storeFrame_other _ _ _ (Hfresh _ _ eq_refl Hdfs))).
  - intros dd dfs Hdd Hne Hdfs.
    rewrite (addData_create _ _ _ _ Hupd Hdd Hne Hdfs); simpl.
    split; [done|]. eexists. split; [done|].
    by rewrite (proj2 (storeFrame_other _ _ _ (Hfresh _ _ Hdd Hdfs))).
Qed.

Lemma addData_keeps_unlisted_array_witness :
  let w := (addData (DataWindow_init "A") first_message).1 in
  data w !! Some "z" = Some z_frame ∧
  data (addData w second_message).1 !! Some "z" = Some z_frame.
Proof.
  intros w.
  assert (data w !! Some "z" = Some z_frame) as Hz by reflexivity.
  split; [exact Hz|].
  apply (addData_keeps_unlisted_array w second_message "z" z_frame Hz).
  - reflexivity.
  - intros dd [= <-]. reflexivity.
Defined.

(** ** processData *)

Lemma processData_window main data dataId :
  msg_id data = Some dataId →
  let w := default (DataWindow_init dataId) (dataHandlers main !! dataId) in
  dataHandlers (processData main data).1 !! dataId = Some (addData w data).1 ∧
  (processData main data).2 = (addData w data).2.
Proof.
  intros Hid. unfold processData. rewrite Hid.
  destruct (dataHandlers main !! dataId) as [w|]; simpl;
    destruct (addData _ data) as [w' out]; simpl;
    by rewrite lookup_insert_eq.
Qed.

(** C4, as the code has it: a message with the update flag set and with
    datasets that are structured makes [addData] raise
    [NotImplementedError]. Nothing is merged: the window that exists for
    the identifier keeps its data and its metadata, and for an identifier
    without a window an empty window is registered, which is not what a
    create does. *)
Theorem processData_update_not_implemented main data dataId dd dfs :
  msg_id data = Some dataId →
  msg_update data = Some true →
  msg_datasets data = Some dd → dd ≠ [] →
  dictToDataFrames dd = Ok dfs →
  (processData main data).2 = Raised NotImplementedError ∧
  dataHandlers (processData main data).1 !! dataId
    = Some (default (DataWindow_init dataId) (dataHandlers main !! dataId)).
Proof.
  intros Hid Hupd Hdd Hne Hdfs.
  destruct (processData_window main data dataId Hid) as [-> ->].
  unfold addData. rewrite Hupd, Hdd. destruct dd; [done|].
  by rewrite Hdfs.
Qed.

Lemma processData_update_not_implemented_witness :
  (processData PlottrMain_init update_message).2 = Raised NotImplementedError ∧
  dataHandlers (processData PlottrMain_init update_message).1 !! "A"
    = Some (DataWindow_init "A").
Proof.
  apply (processData_update_not_implemented PlottrMain_init update_message "A"
           incoming_datasets [incoming_frame]); reflexivity || done.
Defined.

(** C4 fails on the last-write-wins example: after a message has stored
    [(1,2) -> 5] under [z], applying the update [(1,2) -> 7] raises
    [NotImplementedError] and the window is the one from before, the
    stored frame still the old one and not the merge; and on a registry
    without a window the update does not store what the same message
    without the flag stores. *)
Lemma processData_update_does_not_merge :
  let main := (processData PlottrMain_init existing_message).1 in
  ∃ w, dataHandlers main !! "A" = Some w ∧
    data w !! Some "z" = Some existing_frame ∧
    (processData main update_message).2 = Raised NotImplementedError ∧
    dataHandlers (processData main update_message).1 !! "A" = Some w ∧
    (∃ merged,
       combineDataFrames existing_frame incoming_frame true = Exactly merged ∧
       data w !! Some "z" ≠ Some merged) ∧
    (∃ w', dataHandlers (processData PlottrMain_init create_message).1 !! "A" = Some w' ∧
       data w' !! Some "z" = Some incoming_frame) ∧
    (∃ w', dataHandlers (processData PlottrMain_init update_message).1 !! "A" = Some w' ∧
       data w' !! Some "z" = None).
Proof.
  intros main. eexists. split_and!.
  - reflexivity.
  - reflexivity.
  - reflexivity.
  - reflexivity.
  - eexists. split; [reflexivity|discriminate].
  - eexists. split; reflexivity.
  - eexists. split; reflexivity.
Qed.

(** C5, as the code has it: after two messages for one identifier, both
    without the update flag and with datasets that are structured, the
    metadata [dataStructure] of the window lists exactly the arrays of the
    second message, and the data dictionary holds the frames of the second
    message under their names. The data dictionary is not emptied: a frame
    of the first message whose array name the second message does not use
    is still stored. *)
Theorem processData_resend main dataId m1 m2 dd1 dd2 dfs1 dfs2 :
  msg_id m1 = Some dataId → msg_id m2 = Some dataId →
  default false (msg_update m1) = false →
  default false (msg_update m2) = false →
  msg_datasets m1 = Some dd1 → msg_datasets m2 = Some dd2 →
  dd1 ≠ [] → dd2 ≠ [] →
  NoDup (dict_keys dd1) → NoDup (dict_keys dd2) →
  dictToDataFrames dd1 = Ok dfs1 → dictToDataFrames dd2 = Ok dfs2 →
  ∃ w,
    dataHandlers (processData (processData main m1).1 m2).1 !! dataId = Some w ∧
    dataStructure w = Some (structureOfAll dfs2) ∧
    (∀ df, df ∈ dfs2 → data w !! columns_name df = Some df) ∧
    (∀ df, df ∈ dfs1 → columns_name df ∉ columns_name <$> dfs2 →
       data w !! columns_name df = Some df).
Proof.
  intros Hid1 Hid2 Hupd1 Hupd2 Hdd1 Hdd2 Hne1 Hne2 Hnd1 Hnd2 Hdfs1 Hdfs2.
  pose proof (dictToDataFrames_names _ _ Hnd1 Hdfs1) as Hnames1.
  pose proof (dictToDataFrames_names _ _ Hnd2 Hdfs2) as Hnames2.
  destruct (processData_window main m1 dataId Hid1) as [Hw1 _].
  destruct (processData_window (processData main m1).1 m2 dataId Hid2) as [Hw2 _].
  rewrite Hw1 in Hw2. simpl in Hw2.
  rewrite (addData_create _ m1 _ _ Hupd1 Hdd1 Hne1 Hdfs1) in Hw2.
  rewrite (addData_create _ m2 _ _ Hupd2 Hdd2 Hne2 Hdfs2) in Hw2.
  simpl in Hw2. eexists. split; [exact Hw2|]. simpl. split_and!.
  - by rewrite storeFrame_structure.
  - intros df Hdf. by apply storeFrame_stored.
  - intros df Hdf Hfresh.
    rewrite (proj1 (storeFrame_other _ _ _ Hfresh)). simpl.
    by apply storeFrame_stored.
Qed.

Lemma processData_resend_witness :
  ∃ w,
    dataHandlers (processData (processData PlottrMain_init first_message).1
                    second_message).1 !! "A" = Some w ∧
    dataStructure w = Some (structureOfAll [y_frame]) ∧
    data w !! Some "y" = Some y_frame.
Proof.
  destruct (processData_resend PlottrMain_init "A" first_message second_message
              [("x", mkDescriptor (Some [1; 2]%Z) None);
               ("z", mkDescriptor (Some [10; 20]%Z) (Some ["x"]))]
              [("x", mkDescriptor (Some [1; 2; 3]%Z) None);
               ("y", mkDescriptor (Some [7; 8; 9]%Z) (Some ["x"]))]
              [z_frame] [y_frame])
    as (w & Hw & Hstructure & Hdata & _); try reflexivity; try discriminate.
  - apply (bool_decide_unpack _). vm_compute. exact I.
  - apply (bool_decide_unpack _). vm_compute. exact I.
  - exists w. split_and!; [done..|]. apply (Hdata y_frame). left.
Defined.

(** C5 fails on the data dictionary: after [first_message], which has the
    array [z], and [second_message], which has only the array [y], the
    window still stores the frame of [z], so what it holds is not exactly
    the content of the second message. *)
Lemma processData_resend_keeps_old_array :
  ∃ w,
    dataHandlers (processData (processData PlottrMain_init first_message).1
                    second_message).1 !! "A" = Some w ∧
    (∃ dd, msg_datasets second_message = Some dd ∧
       dictToDataFrames dd = Ok [y_frame]) ∧
    data w !! Some "z" = Some z_frame ∧
    data w ≠ {[Some "y" := y_frame]}.
Proof.
  eexists. split; [reflexivity|]. split_and!.
  - eexists. split; reflexivity.
  - reflexivity.
  - intros Heq.
    apply (f_equal (λ m : gmap name DataFrame, m !! Some "z")) in Heq.
    vm_compute in Heq. discriminate.
Qed.

(** ** DataReceiver.loop *)

Lemma while_running_objects msgs rest :
  while_running ((object_arrival <$> msgs) ++ rest)
    = ((msgs ≫= emitted) ++ (while_running rest).1, (while_running rest).2).
Proof.
  induction msgs as [|data msgs IH]; csimpl.
  - by destruct (while_running rest).
  - rewrite IH. simpl. by rewrite <-app_assoc.
Qed.

Lemma loop_objects msgs rest :
  loop ((object_arrival <$> msgs) ++ rest)
    = (sendInfo "Listening..." :: (msgs ≫= emitted) ++ (while_running rest).1,
       (while_running rest).2).
Proof. unfold loop. by rewrite while_running_objects. Qed.

(** C7, as the code has it: whatever objects were received before and
    whatever arrives after,
    a decoded object without [id] makes the loop emit the diagnostic only
    and go on with the next arrival, and a decoded object with [id] makes
    it emit the notice that names the identifier and then the data signal
    that carries the message as received, and go on. *)
Theorem loop_object_payload msgs data rest :
  (msg_id data = None →
     loop ((object_arrival <$> msgs) ++ object_arrival data :: rest)
       = (sendInfo "Listening..." :: (msgs ≫= emitted)
            ++ sendInfo "Received invalid data (no ID)"
            :: (while_running rest).1,
          (while_running rest).2)) ∧
  (∀ dataId, msg_id data = Some dataId →
     loop ((object_arrival <$> msgs) ++ object_arrival data :: rest)
       = (sendInfo "Listening..." :: (msgs ≫= emitted)
            ++ sendInfo ("Received data for dataset: " +:+ dataId)
            :: sendData data :: (while_running rest).1,
          (while_running rest).2)).
Proof.
  split; [intros Hid|intros dataId Hid]; rewrite loop_objects; simpl;
    unfold emitted; rewrite Hid; by destruct (while_running rest).
Qed.

Lemma loop_object_payload_witness :
  loop [object_arrival (mkMessage None None None);
        object_arrival (mkMessage (Some "A") None None)]
    = ([sendInfo "Listening...";
        sendInfo "Received invalid data (no ID)";
        sendInfo "Received data for dataset: A";
        sendData (mkMessage (Some "A") None None)], Waiting).
Proof.
  apply (proj2 (loop_object_payload [mkMessage None None None]
                  (mkMessage (Some "A") None None) []) "A").
  reflexivity.
Defined.

(** C7 fails on a decoded payload that is not an object: a JSON array,
    string, number or [null] lacks the [id] field like any value without
    fields, but [data['id']] raises a [TypeError] on it and not the
    [KeyError] that the loop handles. No diagnostic is emitted for it, the
    loop does not continue, and the message that arrives after it is not
    passed on. *)
Lemma loop_dies_on_non_object_payload :
  loop [mkArrival true (Decoded JOther);
        object_arrival (mkMessage (Some "A") None None)]
    = ([sendInfo "Listening..."], Failed TypeError) ∧
  (sendInfo "Received invalid data (no ID)"
     ∉ (loop [mkArrival true (Decoded JOther);
              object_arrival (mkMessage (Some "A") None None)]).1) ∧
  (loop [mkArrival true (Decoded JOther);
         object_arrival (mkMessage (Some "A") None None)]).2 ≠ Waiting ∧
  (sendData (mkMessage (Some "A") None None)
     ∉ (loop [mkArrival true (Decoded JOther);
              object_arrival (mkMessage (Some "A") None None)]).1).
Proof.
  split_and!; [reflexivity| |discriminate|];
    simpl; intros [?|[]%elem_of_nil]%elem_of_cons; discriminate.
Qed.

(** C6, as the code has it: a payload that cannot be decoded makes
    [recv_json] raise out of the loop. No diagnostic is emitted for it,
    the loop ends there and later arrivals are not received. What the loop
    survives is any number of decoded objects, with or without [id]: after
    them it waits for the next arrival, and it stops when it finds the
    [running] flag cleared. *)
Theorem loop_undecodable_payload msgs rest :
  loop ((object_arrival <$> msgs) ++ mkArrival true Undecodable :: rest)
    = (sendInfo "Listening..." :: (msgs ≫= emitted), Failed ValueError) ∧
  loop (object_arrival <$> msgs)
    = (sendInfo "Listening..." :: (msgs ≫= emitted), Waiting) ∧
  (∀ r, loop ((object_arrival <$> msgs) ++ mkArrival false r :: rest)
    = (sendInfo "Listening..." :: (msgs ≫= emitted), Stopped)).
Proof.
  split_and!; [| |intros r].
  - rewrite loop_objects. simpl. by rewrite app_nil_r.
  - rewrite <-(app_nil_r (object_arrival <$> msgs)), loop_objects.
    simpl. by rewrite app_nil_r.
  - rewrite loop_objects. simpl. by rewrite app_nil_r.
Qed.

(** C6 fails on a malformed payload followed by a well-formed message:
    the loop ends with the decoding error after the opening notice, with
    no diagnostic for the payload and nothing emitted for the message. *)
Lemma loop_dies_on_undecodable_payload :
  loop [mkArrival true Undecodable;
        object_arrival (mkMessage (Some "A") None None)]
    = ([sendInfo "Listening..."], Failed ValueError) ∧
  (loop [mkArrival true Undecodable;
         object_arrival (mkMessage (Some "A") None None)]).2 ≠ Waiting ∧
  sendData (mkMessage (Some "A") None None)
    ∉ (loop [mkArrival true Undecodable;
             object_arrival (mkMessage (Some "A") None None)]).1.
Proof.
  split_and!; [reflexivity|discriminate|].
  simpl. intros [?|[]%elem_of_nil]%elem_of_cons. discriminate.
Qed.

(** * Further properties *)

(** ** DataReceiver.loop *)

(** X1: a payload that decodes to something other than an object (an
    array, a string, a number, [null]) makes [data['id']] raise a
    [TypeError], which [except KeyError] does not catch: the loop ends
    there without a diagnostic, whatever objects came before and whatever
    would arrive after. *)
Theorem loop_non_object_payload msgs rest :
  loop ((object_arrival <$> msgs) ++ mkArrival true (Decoded JOther) :: rest)
    = (sendInfo "Listening..." :: (msgs ≫= emitted), Failed TypeError).
Proof. rewrite loop_objects. simpl. by rewrite app_nil_r. Qed.

Lemma while_running_data_has_id arrivals d :
  sendData d ∈ (while_running arrivals).1 →
  ∃ dataId, msg_id d = Some dataId ∧
    sendInfo ("Received data for dataset: " +:+ dataId)
      ∈ (while_running arrivals).1.
Proof.
  induction arrivals as [|a arrivals IH]; simpl; [by intros ?%elem_of_nil|].
  destruct (running a); [|by intros ?%elem_of_nil].
  destruct (recv_json a) as [[data|]|]; try by intros ?%elem_of_nil.
  destruct (while_running arrivals) as [sigs e]; simpl in *.
  unfold emitted. destruct (msg_id data) as [dataId|] eqn:Hid; simpl.
  - intros [?|[[= ->]|Hd]%elem_of_cons]%elem_of_cons; [done| |].
    + exists dataId. split; [done|left].
    + destruct (IH Hd) as (i & Hi & Hin). exists i. split; [done|].
      by do 2 right.
  - intros [?|Hd]%elem_of_cons; [done|].
    destruct (IH Hd) as (i & Hi & Hin). exists i. split; [done|by right].
Qed.

(** X2: the loop passes on only messages that have an identifier, each
    announced by the notice that names it; so [processData], the slot that
    [sendData] is connected to, always finds or registers a window for
    such a message. *)
Theorem loop_data_has_id arrivals d :
  sendData d ∈ (loop arrivals).1 →
  ∃ dataId, msg_id d = Some dataId ∧
    sendInfo ("Received data for dataset: " +:+ dataId) ∈ (loop arrivals).1 ∧
    ∀ main, is_Some (dataHandlers (processData main d).1 !! dataId).
Proof.
  unfold loop.
  pose proof (while_running_data_has_id arrivals d) as Hw.
  destruct (while_running arrivals) as [sigs e]; simpl in *.
  intros [?|Hd]%elem_of_cons; [done|].
  destruct (Hw Hd) as (dataId & Hid & Hin).
  exists dataId. split_and!; [done|by right|].
  intros main. destruct (processData_window main d dataId Hid) as [-> _]. eauto.
Qed.

Lemma loop_data_has_id_witness :
  ∃ dataId, msg_id bare_message = Some dataId ∧
    ∀ main, is_Some (dataHandlers (processData main bare_message).1 !! dataId).
Proof.
  destruct (loop_data_has_id
              [object_arrival (mkMessage None None None);
               object_arrival bare_message] bare_message)
    as (dataId & Hid & _ & Hmain).
  - vm_compute. do 3 right. left.
  - exists dataId. split; [exact Hid|exact Hmain].
Defined.

Lemma while_running_prefix l1 l2 :
  (while_running l1).1 `prefix_of` (while_running (l1 ++ l2)).1.
Proof.
  induction l1 as [|a l1 IH]; simpl; [apply prefix_nil|].
  destruct (running a); [|done].
  destruct (recv_json a) as [[data|]|]; [|done..].
  destruct (while_running l1) as [sigs1 e1],
    (while_running (l1 ++ l2)) as [sigs2 e2]; simpl in *.
  by apply prefix_app.
Qed.

(** X3: what the loop has emitted is never taken back: the signals
    emitted on a sequence of arrivals are a prefix of the signals emitted
    on any continuation of that sequence. *)
Theorem loop_prefix l1 l2 :
  (loop l1).1 `prefix_of` (loop (l1 ++ l2)).1.
Proof.
  unfold loop. pose proof (while_running_prefix l1 l2) as Hp.
  destruct (while_running l1) as [sigs1 e1],
    (while_running (l1 ++ l2)) as [sigs2 e2]; simpl in *.
  by apply (prefix_app [_]).
Qed.

Lemma while_running_ended l l' :
  (while_running l).2 ≠ Waiting → while_running (l ++ l') = while_running l.
Proof.
  induction l as [|a l IH]; simpl; [done|].
  destruct (running a); [|done].
  destruct (recv_json a) as [[data|]|]; [|done..].
  destruct (while_running l) as [sigs e]; simpl in *.
  intros He. by rewrite IH.
Qed.

(** X4: once the loop has ended, by the cleared [running] flag or by an
    exception, nothing that arrives later is received or emitted. *)
Theorem loop_ended l l' :
  (loop l).2 ≠ Waiting → loop (l ++ l') = loop l.
Proof.
  unfold loop. intros He. rewrite while_running_ended; [done|].
  by destruct (while_running l).
Qed.

Lemma loop_ended_witness :
  loop ([object_arrival bare_message; mkArrival false Undecodable]
          ++ [object_arrival bare_message])
    = ([sendInfo "Listening..."; sendInfo "Received data for dataset: A";
        sendData bare_message], Stopped).
Proof.
  rewrite (loop_ended [object_arrival bare_message; mkArrival false Undecodable]
             [object_arrival bare_message]); [reflexivity|].
  vm_compute. discriminate.
Defined.

(** X5: objects are passed on in the order of arrival, each one that has
    an identifier exactly once and none that lacks it. *)
Theorem loop_fifo msgs rest :
  data_sent (loop ((object_arrival <$> msgs) ++ rest)).1
    = filter (λ m, is_Some (msg_id m)) msgs
        ++ data_sent (while_running rest).1.
Proof.
  rewrite loop_objects. unfold data_sent; simpl. rewrite omap_app. f_equal.
  induction msgs as [|m msgs IH]; [done|]. csimpl.
  rewrite omap_app, IH, filter_cons. unfold emitted.
  destruct (decide (is_Some (msg_id m))) as [[dataId Hid]|Hnone].
  - by rewrite Hid.
  - destruct (msg_id m); [destruct Hnone; eauto|done].
Qed.

(** ** PlottrMain.processData *)

(** X6: a message touches the window of its own identifier only: the
    window registered under any other identifier is the same before and
    after, whether [addData] returns or raises. *)
Theorem processData_other_windows main data k :
  msg_id data ≠ Some k →
  dataHandlers (processData main data).1 !! k = dataHandlers main !! k.
Proof.
  intros Hne. unfold processData.
  destruct (msg_id data) as [dataId|]; [|done].
  destruct (dataHandlers main !! dataId); destruct (addData _ data);
    simpl; apply lookup_insert_ne; congruence.
Qed.

Lemma processData_other_windows_witness :
  let main := (processData PlottrMain_init (mkMessage (Some "B") None None)).1 in
  dataHandlers (processData main first_message).1 !! "B"
    = Some (DataWindow_init "B").
Proof.
  intros main.
  rewrite (processData_other_windows main first_message "B"); [reflexivity|].
  discriminate.
Defined.

(** X7: a message with an identifier adds its identifier to the registered
    ones and removes none; the log gets the line about a new window exactly
    when the identifier was not registered before. *)
Theorem processData_registers main data dataId :
  msg_id data = Some dataId →
  dom (dataHandlers (processData main data).1)
    = {[dataId]} ∪ dom (dataHandlers main) ∧
  (dataHandlers main !! dataId = None →
     logger (processData main data).1
       = logger main ++ ["Started new data window for " +:+ dataId]) ∧
  (is_Some (dataHandlers main !! dataId) →
     logger (processData main data).1 = logger main).
Proof.
  intros Hid. unfold processData. rewrite Hid.
  destruct (dataHandlers main !! dataId) as [w|] eqn:Hw;
    destruct (addData _ data) as [w' out]; simpl;
    (split_and!; [by rewrite dom_insert_L| |]); done.
Qed.

Lemma processData_registers_witness :
  dom (dataHandlers (processData PlottrMain_init bare_message).1) = {["A"]} ∪ ∅ ∧
  logger (processData PlottrMain_init bare_message).1
    = ["Started new data window for A"].
Proof.
  destruct (processData_registers PlottrMain_init bare_message "A")
    as (Hdom & Hnew & _); [reflexivity|].
  split; [exact Hdom|]. apply Hnew. reflexivity.
Defined.

Lemma addData_dataId w dataDict : dataId (addData w dataDict).1 = dataId w.
Proof.
  unfold addData. destruct (msg_datasets dataDict) as [[|entry dd]|]; [done| |done].
  destruct (dictToDataFrames (entry :: dd)); [|done].
  by destruct (negb (default false (msg_update dataDict))).
Qed.

(** X8: [processData] keeps every window registered under its own
    identifier: if each registered window has the [dataId] of its key, the
    same holds after any message, with or without identifier. *)
Theorem processData_consistent main data :
  handlers_consistent main → handlers_consistent (processData main data).1.
Proof.
  intros Hmain k w. unfold processData.
  destruct (msg_id data) as [dataId|] eqn:Hid; [|apply Hmain].
  destruct (dataHandlers main !! dataId) as [w0|] eqn:Hw0;
    pose proof (addData_dataId (default (DataWindow_init dataId)
                                  (dataHandlers main !! dataId)) data) as Hw';
    rewrite Hw0 in Hw'; simpl in Hw';
    destruct (addData _ data) as [w' out]; simpl in *;
    (destruct (decide (dataId = k)) as [->|Hne];
     [rewrite lookup_insert_eq; intros [= <-]
     |rewrite lookup_insert_ne by done; apply Hmain]).
  - rewrite Hw'. by apply Hmain.
  - done.
Qed.

Lemma processData_consistent_witness :
  handlers_consistent
    (processData (processData PlottrMain_init first_message).1 update_message).1.
Proof.
  apply processData_consistent, processData_consistent.
  intros k w Hk. vm_compute in Hk. discriminate.
Defined.

(** X9: a message that has an identifier but no datasets, or an empty
    [datasets] object, is accepted whatever its update flag says, also when
    the flag is set: nothing is structured, nothing is raised, the window of
    a known identifier is left as it is and an unknown identifier gets a
    window without data. *)
Theorem processData_without_datasets main data dataId :
  msg_id data = Some dataId →
  msg_datasets data = None ∨ msg_datasets data = Some [] →
  (processData main data).2 = Returned ∧
  dataHandlers (processData main data).1 !! dataId
    = Some (default (DataWindow_init dataId) (dataHandlers main !! dataId)).
Proof.
  intros Hid Hdd.
  destruct (processData_window main data dataId Hid) as [-> ->].
  unfold addData. by destruct Hdd as [-> | ->].
Qed.

Lemma processData_without_datasets_witness :
  (processData PlottrMain_init (mkMessage (Some "A") (Some true) (Some []))).2
    = Returned ∧
  dataHandlers
    (processData PlottrMain_init (mkMessage (Some "A") (Some true) (Some []))).1
    !! "A" = Some (DataWindow_init "A").
Proof.
  apply (processData_without_datasets PlottrMain_init
           (mkMessage (Some "A") (Some true) (Some [])) "A").
  - reflexivity.
  - right. reflexivity.
Defined.

(** ** dictToDataFrames, further *)

Lemma framesOf_all_None dataDict keys :
  (∀ k, k ∈ keys → frameOf dataDict k = Ok None) →
  framesOf dataDict keys = Ok [].
Proof.
  induction keys as [|k keys IH]; intros Hall; simpl; [done|].
  rewrite Hall by left. simpl. rewrite IH; [done|].
  intros k' Hk'. apply Hall. by right.
Qed.

(** X10: a message that has axis arrays only is structured into the empty
    list of frames, without error; an entry without ['axes'] is skipped
    before its ['values'] are read, so it may even lack them. *)
Theorem dictToDataFrames_axes_only dataDict :
  (∀ k d, dict_get k dataDict = Some d → d_axes d = None) →
  dictToDataFrames dataDict = Ok [].
Proof.
  intros Hall. apply framesOf_all_None. intros k Hk.
  destruct (dict_get k dataDict) as [d|] eqn:Hd.
  - eapply frameOf_axis; eauto.
  - by apply dict_get_None in Hd.
Qed.

Lemma dictToDataFrames_axes_only_witness :
  dictToDataFrames axes_only_message = Ok [].
Proof.
  apply dictToDataFrames_axes_only. intros k d Hk. simpl in Hk.
  repeat case_decide; simplify_eq; done.
Defined.

Lemma frameOf_None_inv dataDict n :
  frameOf dataDict n = Ok None → dict_get n dataDict ≫= d_axes = None.
Proof.
  unfold frameOf, dict_item.
  destruct (dict_get n dataDict) as [[ovals oaxs]|]; simpl; [|done].
  destruct oaxs as [axs|]; [|done].
  destruct ovals as [vals|]; simpl; [|done].
  destruct (mapM (coord dataDict) axs) as [coords|]; simpl; [|done].
  destruct (MultiIndex_from_tuples _ axs) as [mi|]; simpl; [|done].
  by destruct (DataFrame_new vals mi).
Qed.

Lemma framesOf_names_in_order dataDict keys dfs :
  framesOf dataDict keys = Ok dfs →
  columns_name <$> dfs
    = Some <$> filter (λ n, is_Some (dict_get n dataDict ≫= d_axes)) keys.
Proof.
  revert dfs. induction keys as [|k keys IH]; simpl; intros dfs.
  - by intros [= <-].
  - intros (o & Ho & (dfs' & Hdfs' & [= <-])%bind_Ok_inv)%bind_Ok_inv.
    rewrite filter_cons. destruct o as [df|].
    + apply frameOf_Some_inv in Ho as (vals & axs & cols & Hget & _ & Hname & _).
      rewrite decide_True by (rewrite Hget; simpl; eauto).
      csimpl. by rewrite Hname, (IH dfs').
    + apply frameOf_None_inv in Ho.
      rewrite decide_False by (rewrite Ho; by intros [? ?]).
      by apply IH.
Qed.

(** X11: when structuring succeeds it returns one frame per data array of
    the message, in message order, each named after its array; axis arrays
    give no frame. *)
Theorem dictToDataFrames_names_in_order dataDict dfs :
  dictToDataFrames dataDict = Ok dfs →
  columns_name <$> dfs = Some <$> data_arrays dataDict.
Proof. apply framesOf_names_in_order. Qed.

Lemma dictToDataFrames_names_in_order_witness :
  columns_name <$> [grid_frame] = Some <$> data_arrays grid_message.
Proof. apply (dictToDataFrames_names_in_order grid_message). reflexivity. Defined.

Lemma DataFrame_new_rows vals mi df :
  DataFrame_new vals mi = Ok df →
  length (rows df) = length (mi_tuples mi) ∧
  ∀ i t, mi_tuples mi !! i = Some t → rows df !! i = Some (t, vals !! i).
Proof.
  unfold DataFrame_new. destruct vals as [|v vals].
  - intros [= <-]; simpl. split; [by rewrite length_fmap|].
    intros i t Ht. by rewrite list_lookup_fmap, Ht.
  - case_decide as Hlen; [|done]. intros [= <-]; cbn [rows].
    change (Some v :: list_fmap scalar (option scalar) Some vals)
      with (Some <$> (v :: vals)).
    split.
    + rewrite length_zip_with, length_fmap. lia.
    + intros i t Ht.
      destruct (lookup_lt_is_Some_2 (v :: vals) i) as [v' Hv'].
      { rewrite Hlen. by eapply lookup_lt_Some. }
      by rewrite lookup_zip_with, Ht, list_lookup_fmap, Hv'.
Qed.

Lemma frameOf_Some_rows dataDict n df :
  frameOf dataDict n = Ok (Some df) →
  ∃ vals axs cols,
    dict_get n dataDict = Some (mkDescriptor (Some vals) (Some axs)) ∧
    Forall2 (axis_values dataDict) axs cols ∧
    columns_name df = Some n ∧ index_names df = axs ∧
    length (rows df) = length (zip_star cols) ∧
    ∀ i t, zip_star cols !! i = Some t → rows df !! i = Some (t, vals !! i).
Proof.
  unfold frameOf, dict_item.
  destruct (dict_get n dataDict) as [[ovals oaxs]|]; [|done]; simpl.
  destruct oaxs as [axs|]; [|done].
  destruct ovals as [vals|]; [|done]; simpl.
  intros (coords & Hcoords & Hrest)%bind_Ok_inv.
  apply bind_Ok_inv in Hrest as (mi & ->%MultiIndex_from_tuples_Ok & Hrest).
  apply bind_Ok_inv in Hrest as (df0 & Hdf0 & [= <-]).
  pose proof (DataFrame_new_Ok _ _ _ Hdf0) as (_ & Hnames & _).
  apply DataFrame_new_rows in Hdf0 as [Hlen Hrows].
  exists vals, axs, (coords.*2).
  split_and!; [done|by apply coords_Ok_inv|done..].
Qed.

(** X12: every frame that structuring returns pairs its axes and values by
    position, also when the coordinates are not a grid: it has one row per
    position of the shortest referenced axis array, and row [i] holds the
    [i]-th entry of each referenced axis array, in the declared axis order,
    with the [i]-th data value. *)
Theorem dictToDataFrames_rows dataDict dfs df :
  dictToDataFrames dataDict = Ok dfs → df ∈ dfs →
  ∃ n vals axs cols,
    dict_get n dataDict = Some (mkDescriptor (Some vals) (Some axs)) ∧
    Forall2 (axis_values dataDict) axs cols ∧
    columns_name df = Some n ∧ index_names df = axs ∧
    length (rows df) = shortest cols ∧
    ∀ i, i < shortest cols →
      ∃ t, mapM (λ c : list scalar, c !! i) cols = Some t ∧
           rows df !! i = Some (t, vals !! i).
Proof.
  intros Hdfs Hdf.
  destruct (framesOf_Ok_inv _ _ _ _ Hdfs Hdf) as (n & _ & Hn).
  apply frameOf_Some_rows in Hn
    as (vals & axs & cols & Hget & Hcols & Hname & Hnames & Hlen & Hrows).
  exists n, vals, axs, cols. split_and!; [done..| |].
  - by rewrite <-length_zip_star.
  - intros i Hi.
    assert (cols ≠ []) as Hne by (intros ->; simpl in Hi; lia).
    destruct (lookup_lt_is_Some_2 (zip_star cols) i) as [t Ht];
      [by rewrite length_zip_star|].
    exists t. split; [by rewrite <-zip_star_lookup|by apply Hrows].
Qed.

Lemma dictToDataFrames_rows_witness :
  ∃ n vals axs cols,
    dict_get n grid_message = Some (mkDescriptor (Some vals) (Some axs)) ∧
    Forall2 (axis_values grid_message) axs cols ∧
    columns_name grid_frame = Some n ∧ index_names grid_frame = axs ∧
    length (rows grid_frame) = shortest cols ∧
    ∀ i, i < shortest cols →
      ∃ t, mapM (λ c : list scalar, c !! i) cols = Some t ∧
           rows grid_frame !! i = Some (t, vals !! i).
Proof.
  apply (dictToDataFrames_rows grid_message [grid_frame] grid_frame);
    [reflexivity|left].
Defined.

Lemma frameOf_unusable dataDict n d axs :
  dict_get n dataDict = Some d → d_axes d = Some axs →
  d_values d = None ∨ axs = [] ∨
    (∃ a da, a ∈ axs ∧ dict_get a dataDict = Some da ∧ d_values da = None) →
  raises (frameOf dataDict n).
Proof.
  intros Hd Haxs Hbad. unfold frameOf, dict_item. rewrite Hd; simpl. rewrite Haxs.
  destruct (d_values d) as [vals|] eqn:Hvals; simpl; [|by eexists].
  destruct Hbad as [?|[-> |(a & da & Ha & Hda & Hnone)]]; [done| |].
  - by exists ValueError.
  - apply raises_bind, (mapM_result_raises _ _ a); [done|].
    exists (KeyError "values"). unfold coord, dict_item. rewrite Hda; simpl.
    by rewrite Hnone.
Qed.

(** X13: besides the cases of C3, structuring raises a [KeyError] or a
    [ValueError], and returns no frame, when a data array has no
    ['values'], when its list of axes is empty, or when an array it names
    as an axis has no ['values']. *)
Theorem dictToDataFrames_unusable dataDict n d axs :
  dict_get n dataDict = Some d → d_axes d = Some axs →
  d_values d = None ∨ axs = [] ∨
    (∃ a da, a ∈ axs ∧ dict_get a dataDict = Some da ∧ d_values da = None) →
  ∃ e, dictToDataFrames dataDict = Raise e ∧
    ((∃ k, e = KeyError k) ∨ e = ValueError).
Proof.
  intros Hd Haxs Hbad.
  destruct (framesOf_raises dataDict (dict_keys dataDict) n) as [e He];
    [by eapply dict_get_keys|by eapply frameOf_unusable|].
  exists e. split; [done|]. by eapply framesOf_Raise_inv.
Qed.

Lemma dictToDataFrames_unusable_witness :
  ∃ e, dictToDataFrames valueless_message = Raise e ∧
    ((∃ k, e = KeyError k) ∨ e = ValueError).
Proof.
  apply (dictToDataFrames_unusable valueless_message "z"
           (mkDescriptor None (Some ["x"])) ["x"]);
    [reflexivity|reflexivity|left; reflexivity].
Defined.

(** ** combineDataFrames, further *)

#[global] Instance row_le_trans : Transitive row_le.
Proof. intros r1 r2 r3. apply tuple_leb_trans. Qed.

Lemma with_tuple_insert_row t r l :
  with_tuple t (insert_row r l) = with_tuple t (r :: l).
Proof.
  unfold with_tuple. induction l as [|r' l IH]; simpl; [done|].
  destruct (tuple_leb r.1 r'.1) eqn:Hle; [done|].
  rewrite (filter_cons _ r'), IH, !filter_cons.
  destruct (decide (r'.1 = t)) as [H'|H']; [|done].
  destruct (decide (r.1 = t)) as [H|H]; [|done].
  rewrite H, <-H', tuple_leb_refl in Hle. done.
Qed.

Lemma with_tuple_sort_rows t l : with_tuple t (sort_rows l) = with_tuple t l.
Proof.
  induction l as [|r l IH]; simpl; [done|].
  rewrite with_tuple_insert_row. unfold with_tuple in *.
  by rewrite !filter_cons, IH.
Qed.

Lemma sorted_stable_unique l1 l2 :
  Sorted row_le l1 → Sorted row_le l2 →
  (∀ t, with_tuple t l1 = with_tuple t l2) → l1 = l2.
Proof.
  intros H1%(Sorted_StronglySorted _) H2%(Sorted_StronglySorted _).
  revert l2 H2. unfold with_tuple.
  induction H1 as [|r l1 H1 IH Hr]; intros l2 H2 Hf.
  - destruct l2 as [|r2 l2]; [done|]. specialize (Hf r2.1).
    rewrite filter_cons, decide_True in Hf by done. done.
  - destruct H2 as [|r2 l2 H2 Hr2].
    { specialize (Hf r.1). rewrite filter_cons, decide_True in Hf by done. done. }
    assert (r = r2) as <-.
    { destruct (decide (r.1 = r2.1)) as [Heq|Hne].
      - specialize (Hf r.1). rewrite !filter_cons in Hf.
        rewrite decide_True in Hf by done.
        rewrite (decide_True (P := r2.1 = r.1)) in Hf by done. congruence.
      - exfalso. apply Hne. apply tuple_leb_antisym.
        + pose proof (Hf r2.1) as Hf2. rewrite !filter_cons in Hf2.
          rewrite decide_False in Hf2 by done.
          rewrite (decide_True (P := r2.1 = r2.1)) in Hf2 by done.
          assert (r2 ∈ l1) as Hin.
          { eapply (list_elem_of_filter (λ r', r'.1 = r2.1)).
            rewrite Hf2. left. }
          by eapply Forall_forall in Hr.
        + pose proof (Hf r.1) as Hf1. rewrite !filter_cons in Hf1.
          rewrite decide_True in Hf1 by done.
          rewrite (decide_False (P := r2.1 = r.1)) in Hf1 by done.
          assert (r ∈ l2) as Hin.
          { eapply (list_elem_of_filter (λ r', r'.1 = r.1)).
            rewrite <-Hf1. left. }
          by eapply Forall_forall in Hr2. }
    f_equal. apply IH; [done|]. intros t. specialize (Hf t).
    rewrite !filter_cons in Hf. destruct (decide (r.1 = t)); congruence.
Qed.

Lemma sort_rows_sorted_id l : Sorted row_le l → sort_rows l = l.
Proof.
  intros Hl. apply sorted_stable_unique; [apply sort_rows_sorted|done|].
  intros t. apply with_tuple_sort_rows.
Qed.

Lemma sort_rows_app_l l1 l2 :
  sort_rows (sort_rows l1 ++ l2) = sort_rows (l1 ++ l2).
Proof.
  apply sorted_stable_unique; [apply sort_rows_sorted..|].
  intros t. rewrite !with_tuple_sort_rows. unfold with_tuple.
  rewrite !filter_app. f_equal. apply with_tuple_sort_rows.
Qed.

Lemma sort_rows_app_r l1 l2 :
  sort_rows (l1 ++ sort_rows l2) = sort_rows (l1 ++ l2).
Proof.
  apply sorted_stable_unique; [apply sort_rows_sorted..|].
  intros t. rewrite !with_tuple_sort_rows. unfold with_tuple.
  rewrite !filter_app. f_equal. apply with_tuple_sort_rows.
Qed.

(** X14: sorting does not reorder the rows of one coordinate tuple: in a
    merge that keeps the integer types, sorted or not, the rows that have a
    given tuple are those of the first frame in their order followed by
    those of the second frame in theirs, so the incoming value of a
    repeated tuple comes after the existing one. *)
Theorem combineDataFrames_stable df1 df2 sortIndex t :
  keeps_types df1 df2 = true →
  ∃ df, combineDataFrames df1 df2 sortIndex = Exactly df ∧
    with_tuple t (rows df)
      = with_tuple t (rows df1) ++ with_tuple t (rows df2).
Proof.
  intros Hk.
  destruct (combineDataFrames_Exactly df1 df2 sortIndex Hk)
    as (df & Hdf & _ & _ & Hrows).
  exists df. split; [done|]. rewrite Hrows. destruct sortIndex.
  - rewrite with_tuple_sort_rows. apply filter_app.
  - apply filter_app.
Qed.

Lemma combineDataFrames_stable_witness :
  ∃ df, combineDataFrames existing_frame incoming_frame true = Exactly df ∧
    with_tuple [1; 2]%Z (rows df)
      = [([1; 2]%Z, Some 5%Z)] ++ [([1; 2]%Z, Some 7%Z)].
Proof.
  apply (combineDataFrames_stable existing_frame incoming_frame true [1; 2]%Z).
  reflexivity.
Defined.

(** The merge of two int64 frames over the same index names is an int64
    frame over these names. *)
Lemma combineDataFrames_int64 df1 df2 sortIndex :
  index_names df1 = index_names df2 →
  int64_frame df1 = true → int64_frame df2 = true →
  ∃ df, combineDataFrames df1 df2 sortIndex = Exactly df ∧
    index_names df = index_names df1 ∧
    int64_frame df = true ∧
    rows df = if sortIndex then sort_rows (rows df1 ++ rows df2)
              else rows df1 ++ rows df2.
Proof.
  intros Hnames H1 H2.
  destruct (combineDataFrames_Exactly df1 df2 sortIndex
              (int64_keeps_types _ _ Hnames H1 H2))
    as (df & Hdf & Hn & Hncols & Hrows).
  exists df. split_and!; [done..| |done].
  unfold int64_frame in *.
  apply andb_true_iff in H1 as [Hc1%bool_decide_eq_true Hr1].
  apply andb_true_iff in H2 as [Hc2%bool_decide_eq_true Hr2].
  rewrite Hncols, Hc1, Hc2, Hrows. simpl.
  by rewrite (forallb_perm _ _ _ (rows_if_sorted_perm _ _)), forallb_app, Hr1, Hr2.
Qed.

(** X15: sorted merges of int64 frames over the same index names compose:
    merging a third frame into the merge of two gives the same rows as
    merging the first into the merge of the other two, namely the sorted
    rows of all three. *)
Theorem combineDataFrames_assoc df1 df2 df3 :
  index_names df1 = index_names df2 → index_names df2 = index_names df3 →
  int64_frame df1 = true → int64_frame df2 = true → int64_frame df3 = true →
  ∃ df12 df23 dfl dfr,
    combineDataFrames df1 df2 true = Exactly df12 ∧
    combineDataFrames df12 df3 true = Exactly dfl ∧
    combineDataFrames df2 df3 true = Exactly df23 ∧
    combineDataFrames df1 df23 true = Exactly dfr ∧
    rows dfl = rows dfr ∧
    rows dfl = sort_rows (rows df1 ++ rows df2 ++ rows df3).
Proof.
  intros Hn12 Hn23 H1 H2 H3.
  destruct (combineDataFrames_int64 df1 df2 true Hn12 H1 H2)
    as (df12 & Hdf12 & Hn & H12 & Hr12).
  destruct (combineDataFrames_int64 df2 df3 true Hn23 H2 H3)
    as (df23 & Hdf23 & Hn' & H23 & Hr23).
  destruct (combineDataFrames_int64 df12 df3 true) as (dfl & Hdfl & _ & _ & Hrl);
    [congruence|done..|].
  destruct (combineDataFrames_int64 df1 df23 true) as (dfr & Hdfr & _ & _ & Hrr);
    [congruence|done..|].
  exists df12, df23, dfl, dfr. split_and!; [done..| |].
  - by rewrite Hrl, Hrr, Hr12, Hr23, sort_rows_app_l, sort_rows_app_r, <-app_assoc.
  - by rewrite Hrl, Hr12, sort_rows_app_l, <-app_assoc.
Qed.

Lemma combineDataFrames_assoc_witness :
  ∃ df12 df23 dfl dfr,
    combineDataFrames unsorted_frame1 existing_frame true = Exactly df12 ∧
    combineDataFrames df12 unsorted_frame2 true = Exactly dfl ∧
    combineDataFrames existing_frame unsorted_frame2 true = Exactly df23 ∧
    combineDataFrames unsorted_frame1 df23 true = Exactly dfr ∧
    rows dfl = rows dfr.
Proof.
  destruct (combineDataFrames_assoc unsorted_frame1 existing_frame unsorted_frame2)
    as (df12 & df23 & dfl & dfr & H12 & Hl & H23 & Hr & Heq & _);
    [reflexivity..|].
  exists df12, df23, dfl, dfr. repeat split; assumption.
Defined.

Lemma Sorted_index_rows l : Sorted tuple_le l.*1 → Sorted row_le l.
Proof.
  induction l as [|r l IH]; csimpl; [constructor|].
  intros [Hl Hhd]%Sorted_inv. constructor; [auto|].
  destruct l; csimpl in *; constructor. by inv Hhd.
Qed.

(** X16: a frame whose index is in ascending order comes out of a sorted
    merge with a frame without rows exactly as it went in, on either side;
    in particular merging the result of a sorted merge with such a frame
    changes nothing. *)
Theorem combineDataFrames_empty df1 df2 :
  index_names df1 = index_names df2 →
  rows df2 = [] → Sorted tuple_le (index df1) →
  ∃ df df',
    combineDataFrames df1 df2 true = Exactly df ∧
    combineDataFrames df2 df1 true = Exactly df' ∧
    rows df = rows df1 ∧ rows df' = rows df1.
Proof.
  intros Hnames Hempty Hsorted%Sorted_index_rows.
  destruct (combineDataFrames_Exactly df1 df2 true)
    as (df & Hdf & _ & _ & Hrows); [apply empty_keeps_types; auto|].
  destruct (combineDataFrames_Exactly df2 df1 true)
    as (df' & Hdf' & _ & _ & Hrows'); [apply empty_keeps_types; auto|].
  exists df, df'. split_and!; [done..| |].
  - by rewrite Hrows, Hempty, app_nil_r, sort_rows_sorted_id.
  - by rewrite Hrows', Hempty, sort_rows_sorted_id.
Qed.

Lemma combineDataFrames_empty_witness :
  ∃ df df',
    combineDataFrames grid_frame empty_frame true = Exactly df ∧
    combineDataFrames empty_frame grid_frame true = Exactly df' ∧
    rows df = rows grid_frame ∧ rows df' = rows grid_frame.
Proof.
  apply (combineDataFrames_empty grid_frame empty_frame);
    [reflexivity|reflexivity|].
  repeat constructor.
Defined.

(** ** addData, further *)

Lemma storeFrame_split st dfs :
  foldl storeFrame st dfs
    = (foldl (λ ds df, dict_set (columns_name df) (structureOf df) ds) st.1 dfs,
       foldl (λ (m : gmap name DataFrame) df, <[columns_name df := df]> m) st.2 dfs).
Proof.
  revert st. induction dfs as [|df dfs IH]; intros [ds m]; simpl; [done|].
  by rewrite IH.
Qed.

Lemma data_foldl_union (m : gmap name DataFrame) dfs :
  foldl (λ (m : gmap name DataFrame) df, <[columns_name df := df]> m) m dfs
    = foldl (λ (m : gmap name DataFrame) df, <[columns_name df := df]> m) ∅ dfs ∪ m.
Proof.
  revert m. induction dfs as [|df dfs IH]; intros m; simpl.
  - by rewrite (left_id_L ∅ (∪)).
  - rewrite (IH (<[_:=_]> m)), (IH (<[_:=_]> ∅)).
    rewrite (insert_union_singleton_l m), insert_empty.
    by rewrite (assoc_L (∪)).
Qed.

(** X17: sending the same message twice is harmless: whatever the window
    and the message, a second [addData] with the same message returns the
    same window and the same outcome as the first one did. *)
Theorem addData_idempotent w dataDict :
  addData (addData w dataDict).1 dataDict = addData w dataDict.
Proof.
  unfold addData.
  destruct (msg_datasets dataDict) as [[|entry dd]|] eqn:Hdd; simpl;
    rewrite ?Hdd; [done| |done].
  destruct (dictToDataFrames (entry :: dd)) as [dfs|e] eqn:Hdfs; simpl;
    rewrite ?Hdd, ?Hdfs; [|done].
  destruct (negb (default false (msg_update dataDict))) eqn:Hupd; simpl;
    rewrite ?Hdd, ?Hdfs, ?Hupd; [|done].
  rewrite !storeFrame_split; simpl. do 2 f_equal.
  rewrite (data_foldl_union (foldl _ _ _)), (data_foldl_union (data w)).
  by rewrite (assoc_L (∪)), (idemp_L (∪)).
Qed.

(** ** The metadata of a grid *)

Lemma elem_of_cartesian sets t :
  t ∈ cartesian sets ↔ Forall2 (λ (x : scalar) s, x ∈ s) t sets.
Proof.
  revert t. induction sets as [|s sets IH]; intros t; simpl.
  - rewrite list_elem_of_singleton. split; [by intros ->|by inv 1].
  - rewrite list_elem_of_bind. split.
    + intros (x & (t' & -> & Ht')%list_elem_of_fmap & Hx).
      constructor; [done|by apply IH].
    + intros (x & t' & Hx & Ht' & ->)%Forall2_cons_inv_r.
      exists x. split; [|done]. apply list_elem_of_fmap.
      exists t'. split; [done|by apply IH].
Qed.

Lemma cartesian_inhabited sets :
  Forall (λ s : list scalar, s ≠ []) sets →
  ∃ t, Forall2 (λ (x : scalar) s, x ∈ s) t sets.
Proof.
  induction 1 as [|s sets Hs _ [t Ht]]; [by exists []|].
  destruct s as [|x s]; [done|]. exists (x :: t). constructor; [left|done].
Qed.

Lemma cartesian_level sets i s (x : scalar) :
  sets !! i = Some s → Forall (λ s : list scalar, s ≠ []) sets →
  (∃ t, t ∈ cartesian sets ∧ t !! i = Some x) ↔ x ∈ s.
Proof.
  intros Hs Hne. split.
  - intros (t & Ht%elem_of_cartesian & Hx).
    by eapply (Forall2_lookup_lr _ t sets i x s) in Ht.
  - intros Hx. destruct (cartesian_inhabited sets Hne) as [t0 Ht0].
    exists (<[i := x]> t0). split.
    + apply elem_of_cartesian.
      rewrite <-(list_insert_id sets i s) by done.
      by apply Forall2_insert.
    + apply list_lookup_insert_eq.
      rewrite (Forall2_length _ _ _ Ht0). by eapply lookup_lt_Some.
Qed.

Lemma level_values_grid tuples sets i s :
  tuples ≡ₚ cartesian sets →
  sets !! i = Some s → NoDup s →
  Forall (λ s : list scalar, s ≠ []) sets →
  length (level_values i tuples) = length s.
Proof.
  intros Hgrid Hs Hnd Hne. apply Permutation_length.
  apply NoDup_Permutation; [apply NoDup_remove_dups|done|].
  intros x. unfold level_values.
  rewrite elem_of_remove_dups, list_elem_of_omap.
  rewrite <-(cartesian_level sets i s x Hs Hne).
  split; intros (t & Ht & Hx); exists t; split; try done.
  - by rewrite <-Hgrid.
  - by rewrite Hgrid.
Qed.

Lemma axes_foldl (acc : pydict string nat) (l : list (string * list scalar)) :
  NoDup (dict_keys acc ++ l.*1) →
  foldl (λ acc mw, dict_set mw.1 (length mw.2) acc) acc l
    = acc ++ ((λ mw, (mw.1, length mw.2)) <$> l).
Proof.
  revert acc. induction l as [|[m lvl] l IH]; intros acc; csimpl.
  - intros _. by rewrite app_nil_r.
  - intros Hnd.
    apply NoDup_app in Hnd as (Hacc & Hdisj & [Hm Hl]%NoDup_cons).
    rewrite dict_set_fresh by (intros Hin; apply (Hdisj _ Hin); left).
    rewrite IH.
    + by rewrite <-app_assoc.
    + unfold dict_keys. rewrite fmap_app; simpl.
      rewrite <-app_assoc; simpl. apply NoDup_app.
      split_and!; [done| |by constructor].
      intros k Hk. by apply Hdisj.
Qed.

Lemma zip_levels (names : list string) (lvls : list (list scalar)) :
  (λ mw : string * list scalar, (mw.1, length mw.2)) <$> zip names lvls
    = zip names (length <$> lvls).
Proof.
  revert lvls. induction names as [|m names IH]; intros [|lvl lvls]; csimpl;
    [done..|]. by rewrite IH.
Qed.

Lemma levels_grid (names : list string) tuples sets :
  length sets = length names →
  tuples ≡ₚ cartesian sets →
  Forall NoDup sets → Forall (λ s : list scalar, s ≠ []) sets →
  length <$> ((λ i, level_values i tuples) <$> seq 0 (length names))
    = length <$> sets.
Proof.
  intros Hlen Hgrid Hnd Hne. rewrite <-Hlen.
  apply (list_eq_same_length _ _ (length sets));
    [by rewrite length_fmap|by rewrite !length_fmap, length_seq|].
  intros i n1 n2 Hi. rewrite <-list_fmap_compose, !list_lookup_fmap.
  rewrite lookup_seq_lt by done. simpl.
  destruct (lookup_lt_is_Some_2 sets i Hi) as [s Hs]. rewrite Hs. simpl.
  intros [= <-] [= <-].
  eapply level_values_grid; [done..| |done].
  by eapply Forall_lookup_1 in Hnd.
Qed.

Lemma dictToDataFrames_single dataDict n vals axs cols :
  NoDup (dict_keys dataDict) →
  dict_get n dataDict = Some (mkDescriptor (Some vals) (Some axs)) →
  (∀ k d, dict_get k dataDict = Some d → k ≠ n → d_axes d = None) →
  Forall2 (axis_values dataDict) axs cols →
  cols ≠ [] → vals ≠ [] → length vals = shortest cols →
  dictToDataFrames dataDict
    = Ok [mkDataFrame (Some n) axs 1 (zip (zip_star cols) (Some <$> vals))].
Proof.
  intros Hkeys Hn Hsingle Hcols Hne Hvals Hlen. unfold dictToDataFrames.
  rewrite (framesOf_single _ _ n
             (mkDataFrame (Some n) axs 1 (zip (zip_star cols) (Some <$> vals))));
    [|done| |].
  - rewrite decide_True; [done|]. by eapply dict_get_keys.
  - rewrite (frameOf_data _ _ _ _ _ Hn Hcols).
    rewrite MultiIndex_from_tuples_zip by (done || by eapply Forall2_length).
    simpl. unfold DataFrame_new. destruct vals as [|v vals]; [done|].
    rewrite decide_True; [done|]. simpl. by rewrite length_zip_star.
  - intros k Hk Hkn.
    destruct (dict_get k dataDict) as [d|] eqn:Hd.
    + eapply frameOf_axis; eauto.
    + by apply dict_get_None in Hd.
Qed.

Lemma grid_size_pos sets :
  Forall (λ s : list scalar, s ≠ []) sets → grid_size sets ≠ 0.
Proof.
  induction 1 as [|s sets Hs _ IH]; simpl; [done|].
  destruct s; [done|]. simpl. lia.
Qed.

(** X18: for a message without the update flag whose one data array [n]
    covers the full grid over non-empty coordinate sets, with pairwise
    distinct axis names, [addData] leaves as metadata exactly one entry,
    for [n]: its point count is the size of the grid and its axes are the
    declared axes in order, each with the size of its coordinate set; so
    the point count shown is the product of the axis counts shown. *)
Theorem addData_grid_metadata w dataDict dd n vals axs cols sets :
  default false (msg_update dataDict) = false →
  msg_datasets dataDict = Some dd →
  NoDup (dict_keys dd) →
  dict_get n dd = Some (mkDescriptor (Some vals) (Some axs)) →
  (∀ k d, dict_get k dd = Some d → k ≠ n → d_axes d = None) →
  Forall2 (axis_values dd) axs cols →
  Forall (λ col, length col = length vals) cols →
  NoDup axs → length sets = length axs →
  Forall NoDup sets → Forall (λ s, s ≠ []) sets →
  zip_star cols ≡ₚ cartesian sets →
  (addData w dataDict).2 = Returned ∧
  dataStructure (addData w dataDict).1
    = Some [(Some n, mkArrayInfo (grid_size sets) (zip axs (length <$> sets)))].
Proof.
  intros Hupd Hdd Hkeys Hn Hsingle Hcols Hlens Haxs Hsets Hnd Hne Hgrid.
  assert (cols ≠ []) as Hcne.
  { intros ->. apply Forall2_nil_inv_r in Hcols as ->.
    destruct sets; [|done]. by apply Permutation_nil_cons in Hgrid. }
  assert (length vals = shortest cols) as Hlen
    by (symmetry; by apply shortest_same).
  assert (length (zip_star cols) = grid_size sets) as Hsize
    by (by rewrite Hgrid, length_cartesian).
  assert (vals ≠ []) as Hvals.
  { intros ->. apply (grid_size_pos sets Hne).
    rewrite <-Hsize, length_zip_star, <-Hlen. done. }
  assert (dd ≠ []) as Hddne by (by intros ->).
  rewrite (addData_create _ _ _ _ Hupd Hdd Hddne
             (dictToDataFrames_single _ _ _ _ _ Hkeys Hn Hsingle Hcols Hcne Hvals Hlen)).
  simpl. split; [done|]. do 3 f_equal.
  assert ((zip (zip_star cols) (Some <$> vals)).*1 = zip_star cols) as Hindex.
  { apply fst_zip. rewrite length_fmap, length_zip_star. lia. }
  unfold structureOf, size_of, levels, index; simpl. rewrite Hindex. f_equal.
  - rewrite <-Hsize, length_zip_with, length_fmap, length_zip_star. lia.
  - rewrite axes_foldl.
    + simpl. rewrite zip_levels. f_equal. by apply levels_grid.
    + simpl. rewrite fst_zip; [done|]. by rewrite length_fmap, length_seq.
Qed.

Lemma addData_grid_metadata_witness :
  dataStructure
    (addData (DataWindow_init "A")
       (mkMessage (Some "A") None (Some grid_message))).1
    = Some [(Some "z", mkArrayInfo 4 [("x", 2); ("y", 2)])].
Proof.
  apply (addData_grid_metadata (DataWindow_init "A")
           (mkMessage (Some "A") None (Some grid_message)) grid_message "z"
           [10; 20; 30; 40]%Z ["x"; "y"] [[1; 1; 2; 2]; [1; 2; 1; 2]]%Z
           [[1; 2]; [1; 2]]%Z).
  - reflexivity.
  - reflexivity.
  - apply (bool_decide_unpack _). vm_compute. exact I.
  - reflexivity.
  - intros k d Hk Hne. simpl in Hk.
    repeat case_decide; simplify_eq; done.
  - repeat constructor; eexists; split; reflexivity.
  - repeat constructor.
  - apply (bool_decide_unpack _). vm_compute. exact I.
  - reflexivity.
  - repeat constructor; apply (bool_decide_unpack _); vm_compute; exact I.
  - repeat constructor; discriminate.
  - reflexivity.
Defined.

(** ** PlotChoice.setOptions *)

Lemma length_string_app s1 s2 :
  String.length (s1 +:+ s2) = String.length s1 + String.length s2.
Proof. induction s1 as [|c s1 IH]; simpl; [done|]. by rewrite IH. Qed.

Lemma length_wrapped k s :
  String.length (wrapped k s) = String.length s + 2 * k.
Proof.
  revert s. induction k as [|k IH]; intros s; simpl; [lia|].
  rewrite IH, !length_string_app.
  change (String.length "<") with 1. change (String.length ">") with 1. lia.
Qed.

Lemma wrapped_starts_with_lt k s :
  starts_with_lt s → starts_with_lt (wrapped k s).
Proof.
  revert s. induction k as [|k IH]; intros s Hs; simpl; [done|].
  apply IH. by eexists.
Qed.

Lemma is_avg_name_not_lt n : is_avg_name n → ¬ starts_with_lt n.
Proof.
  intros Havg [s' ->]. unfold is_avg_name, AVGAXISNAMES in Havg. simpl in Havg.
  repeat (apply elem_of_cons in Havg as [Havg|Havg]; [discriminate|]).
  by apply elem_of_nil in Havg.
Qed.

Lemma is_avg_name_not_empty n : is_avg_name n → n ≠ "".
Proof.
  intros Havg ->. unfold is_avg_name, AVGAXISNAMES in Havg. simpl in Havg.
  repeat (apply elem_of_cons in Havg as [Havg|Havg]; [discriminate|]).
  by apply elem_of_nil in Havg.
Qed.

(** The loop stops at the first placeholder that is no axis name. *)
Lemma noSelName_loop_sound fuel s names r :
  noSelName_loop fuel s names = Some r →
  ∃ k : nat, k < fuel ∧ r = wrapped k s ∧ (r ∉ names) ∧
    ∀ i : nat, i < k → wrapped i s ∈ names.
Proof.
  revert s. induction fuel as [|fuel IH]; intros s; simpl; [done|].
  case_decide as Hin.
  - intros (k & Hk & -> & Hr & Hbelow)%IH. exists (S k).
    split_and!; [lia|done..|].
    intros [|i] Hi; [done|]. apply Hbelow. lia.
  - intros [= <-]. exists 0. split_and!; [lia|done..|]. intros i Hi. lia.
Qed.

Lemma noSelName_loop_complete fuel s names j :
  j < fuel → wrapped j s ∉ names →
  is_Some (noSelName_loop fuel s names).
Proof.
  revert s j. induction fuel as [|fuel IH]; intros s j Hj Hout; [lia|].
  simpl. case_decide as Hin; [|done].
  destruct j as [|j]; [done|]. apply (IH _ j); [lia|done].
Qed.

(** Among the first [length names + 1] placeholders one is no axis name:
    they are pairwise distinct, being of different lengths. *)
Lemma placeholder_exists s (names : list string) :
  ∃ j : nat, (j ≤ length names)%nat ∧ wrapped j s ∉ names.
Proof.
  destruct (decide (Forall (λ j, wrapped j s ∈ names) (seq 0 (S (length names)))))
    as [Hall|Hex].
  - assert (((λ j, wrapped j s) <$> seq 0 (S (length names))) ⊆+ names) as Hsub.
    { apply NoDup_submseteq.
      - apply NoDup_fmap_2_strong; [|apply NoDup_seq].
        intros j1 j2 _ _ Heq%(f_equal String.length).
        rewrite !length_wrapped in Heq. lia.
      - intros x (j & -> & Hj)%list_elem_of_fmap.
        by eapply Forall_forall in Hall. }
    apply submseteq_length in Hsub.
    rewrite length_fmap, length_seq in Hsub. lia.
  - apply not_Forall_Exists in Hex; [|apply _].
    apply Exists_exists in Hex as (j & Hj%elem_of_seq & Hout).
    exists j. split; [lia|done].
Qed.

Lemma find_avgAxisName_foldl acc l :
  foldl (λ avg n, if decide (lower n ∈ AVGAXISNAMES) then Some n else avg) acc l
    = match last (filter is_avg_name l) with
      | Some a => Some a
      | None => acc
      end.
Proof.
  revert acc. induction l as [|n l IH]; intros acc; simpl; [done|].
  rewrite IH, filter_cons. unfold is_avg_name at 2.
  destruct (decide (lower n ∈ AVGAXISNAMES)); [|done].
  rewrite last_cons. by destruct (last (filter is_avg_name l)).
Qed.

Lemma find_avgAxisName_last l :
  find_avgAxisName l = last (filter is_avg_name l).
Proof.
  unfold find_avgAxisName. rewrite find_avgAxisName_foldl.
  by destruct (last _).
Qed.

Lemma filter_all {A} (P : A → Prop) `{∀ x, Decision (P x)} (l : list A) :
  Forall P l → filter P l = l.
Proof.
  induction 1 as [|x l Hx _ IH]; [done|].
  by rewrite filter_cons, decide_True, IH.
Qed.

Lemma pop_index_NoDup a l :
  NoDup l → a ∈ l → pop_index a l = Ok (filter (λ x, x ≠ a) l).
Proof.
  induction 1 as [|x l Hx Hnd IH]; [by intros ?%elem_of_nil|].
  simpl. rewrite filter_cons. intros Ha. destruct (decide (x = a)) as [->|Hne].
  - rewrite decide_False by (by intros ?). f_equal. symmetry.
    apply filter_all, Forall_forall. by intros y Hy ->.
  - rewrite decide_True by done.
    apply elem_of_cons in Ha as [->|Ha]; [done|]. by rewrite IH.
Qed.

Lemma pop_index_elem a l : a ∈ l → ∃ l', pop_index a l = Ok l'.
Proof.
  induction l as [|x l IH]; [by intros ?%elem_of_nil|].
  simpl. intros Ha. destruct (decide (x = a)) as [->|Hne]; [eauto|].
  apply elem_of_cons in Ha as [->|Ha]; [done|].
  destruct (IH Ha) as [l' ->]. eauto.
Qed.

(** What [setOptions] returns, read off its definition. *)
Lemma setOptions_inv fuel ds pc :
  setOptions fuel ds = Some (Ok pc) →
  axesNames pc = noSelName pc :: dict_keys (axes ds) ∧
  noSelName_loop fuel "<None>" (dict_keys (axes ds)) = Some (noSelName pc) ∧
  avgAxisName pc = last (filter is_avg_name (dict_keys (axes ds))) ∧
  (if avgAxisName pc is Some a then pop_index a (dict_keys (axes ds))
   else Ok (dict_keys (axes ds)))
    = Ok (xopts pc).
Proof.
  unfold setOptions. set (keys := dict_keys (axes ds)). intros Hpc.
  destruct (noSelName_loop fuel "<None>" keys) as [ns|] eqn:Hns; [|done].
  simpl in Hpc.
  assert (find_avgAxisName (ns :: keys) = last (filter is_avg_name keys)) as Havg.
  { rewrite find_avgAxisName_last, filter_cons, decide_False; [done|].
    intros Hns'%is_avg_name_not_lt. apply Hns'.
    apply noSelName_loop_sound in Hns as (k & _ & -> & _).
    apply wrapped_starts_with_lt. by eexists. }
  rewrite Havg in Hpc.
  destruct (last (filter is_avg_name keys)) as [a|] eqn:Hlast; simpl in Hpc.
  - assert (is_avg_name a) as Ha.
    { apply last_Some_elem_of in Hlast.
      by apply list_elem_of_filter in Hlast as [? _]. }
    destruct a as [|c a]; [by apply is_avg_name_not_empty in Ha|].
    simpl in Hpc.
    destruct (pop_index (String c a) keys) as [l'|e] eqn:Hpop; [|done].
    simpl in Hpc. injection Hpc as <-. by simpl.
  - injection Hpc as <-. by simpl.
Qed.

(** X19: [setOptions] never fails and its loop ends after at most one
    test more than there are axes: it returns, the placeholder it chooses
    is ["<None>"] wrapped in as many pairs of angle brackets as it takes to
    differ from every axis name, and the names offered for selection are
    the placeholder followed by the axis names in order. *)
Theorem setOptions_total fuel ds :
  length (axes ds) < fuel →
  ∃ pc (k : nat),
    setOptions fuel ds = Some (Ok pc) ∧
    axesNames pc = noSelName pc :: dict_keys (axes ds) ∧
    (noSelName pc ∉ dict_keys (axes ds)) ∧
    (k ≤ length (axes ds))%nat ∧ noSelName pc = wrapped k "<None>" ∧
    ∀ i : nat, i < k → wrapped i "<None>" ∈ dict_keys (axes ds).
Proof.
  intros Hfuel. set (keys := dict_keys (axes ds)).
  assert (length keys = length (axes ds)) as Hlen
    by (unfold keys, dict_keys; apply length_fmap).
  destruct (placeholder_exists "<None>" keys) as (j & Hj & Hout).
  destruct (noSelName_loop_complete fuel "<None>" keys j) as [ns Hns];
    [lia|done|].
  pose proof (noSelName_loop_sound _ _ _ _ Hns) as (k & _ & Hk & Hfresh & Hbelow).
  assert (k ≤ length (axes ds))%nat as Hkj.
  { destruct (decide (k ≤ j)%nat) as [?|Hgt]; [lia|].
    destruct Hout. apply Hbelow. lia. }
  assert (∃ pc, setOptions fuel ds = Some (Ok pc)) as [pc Hpc].
  { unfold setOptions. fold keys. rewrite Hns. simpl.
    assert (find_avgAxisName (ns :: keys) = last (filter is_avg_name keys)) as ->.
    { rewrite find_avgAxisName_last, filter_cons, decide_False; [done|].
      intros Hns'%is_avg_name_not_lt. apply Hns'. subst ns.
      apply wrapped_starts_with_lt. by eexists. }
    destruct (last (filter is_avg_name keys)) as [a|] eqn:Hlast; simpl;
      [|eauto].
    apply last_Some_elem_of, list_elem_of_filter in Hlast as [Ha Hin].
    destruct a as [|c a]; [by apply is_avg_name_not_empty in Ha|]. simpl.
    destruct (pop_index_elem _ _ Hin) as [l' ->]. simpl. eauto. }
  exists pc, k.
  pose proof (setOptions_inv _ _ _ Hpc) as (Hnames & Hloop & _).
  fold keys in Hloop, Hnames.
  assert (noSelName pc = ns) as Hns' by congruence.
  rewrite Hns' in Hnames |- *. split_and!; done.
Qed.

Lemma setOptions_total_witness :
  ∃ pc (k : nat),
    setOptions 4 averaged_info = Some (Ok pc) ∧
    axesNames pc = noSelName pc :: dict_keys (axes averaged_info) ∧
    (noSelName pc ∉ dict_keys (axes averaged_info)) ∧
    (k ≤ length (axes averaged_info))%nat ∧ noSelName pc = wrapped k "<None>" ∧
    ∀ i : nat, i < k → wrapped i "<None>" ∈ dict_keys (axes averaged_info).
Proof. apply (setOptions_total 4 averaged_info). simpl. lia. Defined.

(** X20: the axis that [setOptions] proposes for averaging is the last
    axis, in the order of the axes, whose name in small letters is one of
    [AVGAXISNAMES]; there is none exactly when no axis has such a name. The
    placeholder is never proposed. *)
Theorem setOptions_avgAxisName fuel ds pc :
  setOptions fuel ds = Some (Ok pc) →
  avgAxisName pc = last (filter is_avg_name (dict_keys (axes ds))) ∧
  (avgAxisName pc = None ↔
     ∀ n, n ∈ dict_keys (axes ds) → ¬ is_avg_name n) ∧
  avgAxisName pc ≠ Some (noSelName pc).
Proof.
  intros (Hnames & Hloop & Havg & _)%setOptions_inv. split_and!.
  - done.
  - rewrite Havg, last_None. split.
    + intros Hnil n Hn Hp.
      assert (n ∈ filter is_avg_name (dict_keys (axes ds))) as Hin
        by (by apply list_elem_of_filter).
      rewrite Hnil in Hin. by apply elem_of_nil in Hin.
    + intros Hnone. destruct (filter _ _) as [|n l] eqn:Hf; [done|].
      assert (n ∈ filter is_avg_name (dict_keys (axes ds))) as Hin
        by (rewrite Hf; left).
      apply list_elem_of_filter in Hin as [Hp Hn]. by destruct (Hnone n).
  - rewrite Havg. intros Hlast%last_Some_elem_of.
    apply list_elem_of_filter in Hlast as [Hp _].
    apply is_avg_name_not_lt in Hp. apply Hp.
    apply noSelName_loop_sound in Hloop as (k & _ & -> & _).
    apply wrapped_starts_with_lt. by eexists.
Qed.

Lemma setOptions_avgAxisName_witness :
  Some "Repetition" = last (filter is_avg_name (dict_keys (axes averaged_info))).
Proof.
  apply (setOptions_avgAxisName 4 averaged_info
           (mkPlotChoice ["<<None>>"; "Repetition"; "<None>"; "x"] "<<None>>"
              (Some "Repetition") ["<None>"; "x"])).
  reflexivity.
Defined.

(** X21: when the axis names are pairwise distinct, as the keys of a
    dictionary are, the names that [setOptions] proposes for the x and the
    y axis are the first two axes that are not the averaging axis: [xopts]
    is the list of axis names without the averaging axis, in order, so the
    two proposals are axes of the array, differ from each other, from the
    averaging axis and from the placeholder. *)
Theorem setOptions_xopts fuel ds pc :
  NoDup (dict_keys (axes ds)) →
  setOptions fuel ds = Some (Ok pc) →
  xopts pc = filter (λ a, avgAxisName pc ≠ Some a) (dict_keys (axes ds)) ∧
  NoDup (xopts pc) ∧
  (noSelName pc ∉ xopts pc) ∧
  ∀ x y, xopts pc !! 0 = Some x → xopts pc !! 1 = Some y → x ≠ y.
Proof.
  intros Hnd Hpc.
  pose proof (setOptions_inv _ _ _ Hpc) as (Hnames & Hloop & Havg & Hxopts).
  simpl in *.
  assert (xopts pc
            = filter (λ a, avgAxisName pc ≠ Some a) (dict_keys (axes ds))) as Heq.
  { destruct (avgAxisName pc) as [a|] eqn:Ha.
    - symmetry in Havg.
      apply last_Some_elem_of, list_elem_of_filter in Havg as [_ Hin].
      rewrite (pop_index_NoDup _ _ Hnd Hin) in Hxopts. injection Hxopts as <-.
      apply list_filter_iff. intros x. split; [by intros ? [= ->]|congruence].
    - injection Hxopts as <-. symmetry. apply filter_all, Forall_forall. done. }
  assert (NoDup (xopts pc)) as Hnd' by (rewrite Heq; by apply NoDup_filter).
  split_and!; [done..| |].
  - rewrite Heq. intros [_ Hin]%list_elem_of_filter.
    by apply noSelName_loop_sound in Hloop as (k & _ & _ & Hfresh & _).
  - intros x y Hx Hy ->.
    by pose proof (NoDup_lookup _ _ _ _ Hnd' Hx Hy).
Qed.

Lemma setOptions_xopts_witness :
  ["<None>"; "x"]
    = filter (λ a, Some "Repetition" ≠ Some a) (dict_keys (axes averaged_info)).
Proof.
  apply (setOptions_xopts 4 averaged_info
           (mkPlotChoice ["<<None>>"; "Repetition"; "<None>"; "x"] "<<None>>"
              (Some "Repetition") ["<None>"; "x"])).
  - apply (bool_decide_unpack _). vm_compute. exact I.
  - reflexivity.
Defined.

(** ** Invariants of addData *)

Lemma dict_set_keys {K V} `{EqDecision K} (k k' : K) (v : V) (d : pydict K V) :
  k' ∈ dict_keys (dict_set k v d) ↔ k' = k ∨ k' ∈ dict_keys d.
Proof.
  unfold dict_keys. induction d as [|[k0 v0] d IH]; csimpl.
  - rewrite list_elem_of_singleton. split; [auto|].
    by intros [?|?%elem_of_nil].
  - destruct (decide (k = k0)) as [->|Hne]; csimpl.
    + rewrite elem_of_cons. tauto.
    + rewrite !elem_of_cons, IH. tauto.
Qed.

Lemma dict_set_NoDup {K V} `{EqDecision K} (k : K) (v : V) (d : pydict K V) :
  NoDup (dict_keys d) → NoDup (dict_keys (dict_set k v d)).
Proof.
  unfold dict_keys. induction d as [|[k0 v0] d IH]; csimpl.
  - intros _. apply NoDup_singleton.
  - intros [Hk0 Hnd]%NoDup_cons.
    destruct (decide (k = k0)) as [->|Hne]; csimpl; [by constructor|].
    constructor; [|auto].
    intros [?|?]%(dict_set_keys k k0 v d); [congruence|done].
Qed.

Lemma dict_set_Forall {K V} `{EqDecision K} (P : K * V → Prop)
    (k : K) (v : V) (d : pydict K V) :
  (∀ k', P (k', v)) → Forall P d → Forall P (dict_set k v d).
Proof.
  intros Hv. induction 1 as [|[k0 v0] d H0 Hd IH]; simpl.
  - repeat constructor. apply Hv.
  - destruct (decide (k = k0)); constructor; auto.
Qed.

Lemma structureOf_axes_NoDup df : NoDup (dict_keys (axes (structureOf df))).
Proof.
  unfold structureOf; simpl.
  generalize (zip (index_names df) (levels df)).
  assert (NoDup (dict_keys ([] : pydict string nat))) as Hacc by constructor.
  revert Hacc. generalize ([] : pydict string nat).
  intros acc Hacc l. revert acc Hacc.
  induction l as [|mw l IH]; intros acc Hacc; simpl; [done|].
  by apply IH, dict_set_NoDup.
Qed.

Lemma storeFrame_names_distinct st dfs :
  NoDup (dict_keys st.1) →
  Forall (λ e : name * arrayInfo, NoDup (dict_keys (axes e.2))) st.1 →
  NoDup (dict_keys (foldl storeFrame st dfs).1) ∧
  Forall (λ e : name * arrayInfo, NoDup (dict_keys (axes e.2)))
    (foldl storeFrame st dfs).1.
Proof.
  revert st. induction dfs as [|df dfs IH]; intros st Hnd Hall; simpl; [done|].
  apply IH; simpl.
  - by apply dict_set_NoDup.
  - apply dict_set_Forall; [|done]. intros n. apply structureOf_axes_NoDup.
Qed.

(** X22: [addData] keeps the names of the metadata distinct: after any
    message no array is listed twice in [dataStructure] and no axis is
    listed twice for an array; so the list of axis names that
    [setOptions] is given never repeats a name. *)
Theorem addData_names_distinct w dataDict :
  structure_names_distinct w →
  structure_names_distinct (addData w dataDict).1.
Proof.
  intros Hw. unfold addData.
  destruct (msg_datasets dataDict) as [[|entry dd]|]; [done| |done].
  destruct (dictToDataFrames (entry :: dd)) as [dfs|e]; [|done].
  destruct (negb (default false (msg_update dataDict))); [|done].
  intros ds [= <-]. apply storeFrame_names_distinct; simpl; constructor.
Qed.

Lemma addData_names_distinct_witness :
  structure_names_distinct (addData (DataWindow_init "A") first_message).1.
Proof.
  apply (addData_names_distinct (DataWindow_init "A") first_message).
  intros ds Hds. discriminate Hds.
Defined.

Lemma storeFrame_describes st dfs :
  (∀ n info, dict_get n st.1 = Some info →
     ∃ df, st.2 !! n = Some df ∧ info = structureOf df) →
  ∀ n info, dict_get n (foldl storeFrame st dfs).1 = Some info →
    ∃ df, (foldl storeFrame st dfs).2 !! n = Some df ∧ info = structureOf df.
Proof.
  revert st. induction dfs as [|df dfs IH]; intros st Hst; simpl; [done|].
  apply IH. intros n info. simpl. rewrite dict_get_set.
  destruct (decide (n = columns_name df)) as [->|Hne].
  - intros [= <-]. exists df. by rewrite lookup_insert_eq.
  - rewrite lookup_insert_ne by done. apply Hst.
Qed.

(** X23: [addData] keeps the metadata in step with the stored frames:
    after any message every array listed in [dataStructure] has a frame in
    [data], so that [self.data[name]] is there for every name the tree
    shows, and its point count and axis counts are those of that frame. *)
Theorem addData_describes_data w dataDict :
  structure_describes_data w →
  structure_describes_data (addData w dataDict).1.
Proof.
  intros Hw. unfold addData.
  destruct (msg_datasets dataDict) as [[|entry dd]|]; [done| |done].
  destruct (dictToDataFrames (entry :: dd)) as [dfs|e]; [|done].
  destruct (negb (default false (msg_update dataDict))); [|done].
  intros ds n info [= <-]. simpl. by apply storeFrame_describes.
Qed.

Lemma addData_describes_data_witness :
  structure_describes_data
    (addData (addData (DataWindow_init "A") first_message).1 second_message).1.
Proof.
  apply addData_describes_data, addData_describes_data.
  intros ds n info Hds. discriminate Hds.
Defined.
